(** * A CSV-backed mini query engine: loader and SELECT interpreter

    Shallow embedding of the two copies of the engine found in the
    repository:

    - the client library [csvUtils.ts] ([loadCSVData], [executeCSVQuery]),
      modelled in [Module Client];
    - the edge function [supabase/functions/execute-sql/index.ts]
      ([parseCSV], [parseCSVLine], [parseCSVRow], [executeCSVQuery]),
      modelled in [Module Server].

    Strings are [String.string] values read as sequences of ASCII
    characters: [toLowerCase] folds [A-Z] only and the white space set is
    the ASCII part of the ECMAScript one.  The regular expressions of the
    source are kept as syntax trees and run by a backtracking matcher that
    follows the ECMAScript priorities (leftmost start, alternatives left to
    right, greedy and lazy quantifiers).  Numbers are IEEE-754 doubles, kept
    as exact dyadic rationals; [parseFloat] rounds to nearest, ties to even.
    The collation behind [localeCompare] belongs to the host and is a
    parameter of the client engine.  The client engine runs in a store of
    arrays, because it sorts in place an array that may be the table's
    own. *)

From Stdlib Require Import String Ascii List Arith ZArith Lia Bool.
From Stdlib Require Import Permutation Sorted.
From stdpp Require Import base gmap.
From Equations Require Import Equations.
Import ListNotations.

Local Open Scope string_scope.
Local Open Scope list_scope.
Local Open Scope nat_scope.

(** ** Strings, as the JavaScript string methods use them *)

Module Str.

Definition code (c : ascii) : nat := nat_of_ascii c.

Definition isUpper (c : ascii) : bool := (65 <=? code c) && (code c <=? 90).
Definition isLower (c : ascii) : bool := (97 <=? code c) && (code c <=? 122).
Definition isDigit (c : ascii) : bool := (48 <=? code c) && (code c <=? 57).

(** [\w] is [[A-Za-z0-9_]]. *)
Definition isWord (c : ascii) : bool :=
  isUpper c || isLower c || isDigit c || (code c =? 95).

(** [\s] and the characters removed by [trim]: TAB, LF, VT, FF, CR, SP. *)
Definition isSpace (c : ascii) : bool :=
  ((9 <=? code c) && (code c <=? 13)) || (code c =? 32).

(** Line terminators, which [.] does not match. *)
Definition isLineTerminator (c : ascii) : bool :=
  (code c =? 10) || (code c =? 13).

Definition isQuote (c : ascii) : bool := (code c =? 39) || (code c =? 34).

Definition lowerChar (c : ascii) : ascii :=
  if isUpper c then ascii_of_nat (code c + 32) else c.

Fixpoint toLowerCase (s : string) : string :=
  match s with
  | EmptyString => EmptyString
  | String c r => String (lowerChar c) (toLowerCase r)
  end.

Definition isEmpty (s : string) : bool :=
  match s with EmptyString => true | _ => false end.

Fixpoint trimStart (s : string) : string :=
  match s with
  | EmptyString => EmptyString
  | String c r => if isSpace c then trimStart r else s
  end.

Fixpoint trimEnd (s : string) : string :=
  match s with
  | EmptyString => EmptyString
  | String c r =>
      let r' := trimEnd r in
      if isSpace c && isEmpty r' then EmptyString else String c r'
  end.

Definition trim (s : string) : string := trimEnd (trimStart s).

(** [s.includes(sub)] *)
Fixpoint includes (s sub : string) : bool :=
  String.prefix sub s ||
  match s with
  | EmptyString => false
  | String _ r => includes r sub
  end.

(** [s.split(sep)] for a one-character separator: never the empty list. *)
Fixpoint split (sep : ascii) (s : string) : list string :=
  match s with
  | EmptyString => [EmptyString]
  | String c r =>
      if Ascii.eqb c sep then EmptyString :: split sep r
      else match split sep r with
           | [] => [String c EmptyString]
           | x :: xs => String c x :: xs
           end
  end.

(** [s.replace(/[...]/g, '')]: drop every character of the class. *)
Fixpoint removeAll (p : ascii -> bool) (s : string) : string :=
  match s with
  | EmptyString => EmptyString
  | String c r => if p c then removeAll p r else String c (removeAll p r)
  end.

(** The first [n] characters of [s]. *)
Fixpoint take (n : nat) (s : string) : string :=
  match n, s with
  | S n', String c r => String c (take n' r)
  | _, _ => EmptyString
  end.

(** The number of occurrences of the character [c]. *)
Fixpoint count (c : ascii) (s : string) : nat :=
  match s with
  | EmptyString => 0
  | String d r => (if Ascii.eqb d c then 1 else 0) + count c r
  end.

End Str.

(** ** Regular expressions

    Only the constructs the source uses. Every regular expression of the
    source carries the [i] flag, so a literal character is compared after
    case folding. *)

Module Regex.

Inductive regex : Type :=
| Eps                                     (* the empty pattern *)
| Chr (c : ascii)                         (* a literal character *)
| Cls (p : ascii -> bool)                 (* a character class *)
| Dot                                     (* [.] *)
| Eoi                                     (* [$], no [m] flag *)
| Cat (r1 r2 : regex)
| Alt (r1 r2 : regex)
| Rep (greedy : bool) (min : nat) (r : regex)   (* [*], [+], [*?], [+?] *)
| Opt (r : regex)                         (* [(...)?] *)
| Grp (n : nat) (r : regex).              (* capture group number [n] *)

Definition captures := list (nat * string).

Fixpoint group (n : nat) (c : captures) : option string :=
  match c with
  | [] => None
  | (m, s) :: c' => if n =? m then Some s else group n c'
  end.

Definition orElse {A} (x y : option A) : option A :=
  match x with Some _ => x | None => y end.

Section Matcher.
Context {R : Type}.

(** A quantifier: [need] iterations are owed, then a greedy one prefers
    one more iteration and a lazy one prefers to go on with [k]. An
    iteration has to consume input (all quantified atoms of the source are
    single characters), so [fuel] above the length of the input is never
    used up. *)
Fixpoint repeatFrom
    (body : string -> captures -> (string -> captures -> option R) -> option R)
    (greedy : bool) (k : string -> captures -> option R)
    (fuel need : nat) (s : string) (c : captures) {struct fuel} : option R :=
  match fuel with
  | 0 => None
  | S fuel' =>
      let again :=
        body s c (fun s' c' =>
          if String.length s' <? String.length s
          then repeatFrom body greedy k fuel' (pred need) s' c'
          else None) in
      if 0 <? need then again
      else if greedy then orElse again (k s c)
      else orElse (k s c) again
  end.

(** [run r s c k]: match [r] at the head of [s] with captures [c], then
    hand the rest of the input to the continuation [k]; [None] makes the
    matcher backtrack. *)
Fixpoint run (r : regex) :
    string -> captures -> (string -> captures -> option R) -> option R :=
  match r with
  | Eps => fun s c k => k s c
  | Chr a => fun s c k =>
      match s with
      | String b t =>
          if Ascii.eqb (Str.lowerChar a) (Str.lowerChar b) then k t c else None
      | EmptyString => None
      end
  | Cls p => fun s c k =>
      match s with
      | String b t => if p b then k t c else None
      | EmptyString => None
      end
  | Dot => fun s c k =>
      match s with
      | String b t => if Str.isLineTerminator b then None else k t c
      | EmptyString => None
      end
  | Eoi => fun s c k =>
      match s with
      | EmptyString => k s c
      | _ => None
      end
  | Cat r1 r2 => fun s c k => run r1 s c (fun s' c' => run r2 s' c' k)
  | Alt r1 r2 => fun s c k => orElse (run r1 s c k) (run r2 s c k)
  | Opt r1 => fun s c k => orElse (run r1 s c k) (k s c)
  | Grp n r1 => fun s c k =>
      run r1 s c (fun s' c' =>
        k s' ((n, Str.take (String.length s - String.length s') s) :: c'))
  | Rep greedy min r1 => fun s c k =>
      repeatFrom (run r1) greedy k (S (String.length s)) min s c
  end.
End Matcher.

(** [s.match(r)] without the [g] flag: the leftmost match, as its
    captures; group 0 is the whole match. *)
Fixpoint exec (r : regex) (s : string) : option captures :=
  orElse
    (run r s [] (fun s' c =>
       Some ((0, Str.take (String.length s - String.length s') s) :: c)))
    match s with
    | EmptyString => None
    | String _ t => exec r t
    end.

(** A literal word: its characters in sequence. *)
Fixpoint lit (s : string) : regex :=
  match s with
  | EmptyString => Eps
  | String c t => Cat (Chr c) (lit t)
  end.

Definition star (r : regex) := Rep true 0 r.
Definition plus (r : regex) := Rep true 1 r.
Definition lazyStar (r : regex) := Rep false 0 r.
Definition lazyPlus (r : regex) := Rep false 1 r.
Definition ws : regex := Cls Str.isSpace.       (* [\s] *)
Definition word : regex := Cls Str.isWord.      (* [\w] *)
Definition digit : regex := Cls Str.isDigit.    (* [\d] *)
Definition quote : regex := Cls Str.isQuote.    (* the class of both quote characters *)

End Regex.

Import Regex.
Infix ":+:" := Cat (at level 60, right associativity).


(** ** Numbers, as [parseFloat] and [parseInt] produce them *)

Module Num.

(** An IEEE-754 double that is not NaN: an infinity, or the dyadic
    rational [m * 2^e]. NaN is the [None] of [option num]. *)
Inductive num : Type :=
| NegInf
| Fin (m e : Z)
| PosInf.

Definition digitVal (c : ascii) : Z := Z.of_nat (Str.code c) - 48.

(** The value of a string of decimal digits. *)
Definition digitsVal (s : string) : Z :=
  (fix go (acc : Z) (s : string) : Z :=
     match s with
     | EmptyString => acc
     | String c r => go (10 * acc + digitVal c)%Z r
     end) 0%Z s.

(** The longest prefix of characters of the class [p], and the rest. *)
Fixpoint span (p : ascii -> bool) (s : string) : string * string :=
  match s with
  | EmptyString => (EmptyString, EmptyString)
  | String c r =>
      if p c then let '(a, b) := span p r in (String c a, b)
      else (EmptyString, s)
  end.

(** Round the positive rational [n / d] to the nearest double, ties to
    even: 53 bits of mantissa, exponents from -1074 (subnormals) to 971,
    overflow to infinity. *)
Definition roundDouble (n d : Z) : num :=
  if (n <=? 0)%Z then Fin 0 0 else
  let t := (Z.log2 n - Z.log2 d - 52)%Z in
  let reaches (t : Z) : bool :=          (* 2^52 <= (n / d) / 2^t *)
    (2 ^ 52 * d * 2 ^ Z.max 0 t <=? n * 2 ^ Z.max 0 (- t))%Z in
  let e := Z.max (-1074) (if reaches t then t else t - 1)%Z in
  let N := (n * 2 ^ Z.max 0 (- e))%Z in
  let D := (d * 2 ^ Z.max 0 e)%Z in
  let q := (N / D)%Z in
  let r := (N mod D)%Z in
  let m := match (2 * r ?= D)%Z with
           | Lt => q
           | Gt => (q + 1)%Z
           | Eq => if Z.even q then q else (q + 1)%Z
           end in
  if (971 <? e)%Z || ((e =? 971)%Z && (2 ^ 53 <=? m)%Z) then PosInf
  else Fin m e.

(** [m * 10^e] as a double. *)
Definition decimal (m e : Z) : num :=
  if (0 <=? e)%Z then roundDouble (m * 10 ^ e) 1 else roundDouble m (10 ^ (- e)).

Definition negate (x : num) : num :=
  match x with
  | NegInf => PosInf
  | PosInf => NegInf
  | Fin m e => Fin (- m) e
  end.

(** The exponent part [e[+-]digits], if the text starts with one. *)
Definition exponentPart (s : string) : Z :=
  match s with
  | String c r =>
      if Ascii.eqb (Str.lowerChar c) "e" then
        let '(neg, r') :=
          match r with
          | String "+" r' => (false, r')
          | String "-" r' => (true, r')
          | _ => (false, r)
          end in
        let '(ds, _) := span Str.isDigit r' in
        if Str.isEmpty ds then 0%Z
        else if neg then (- digitsVal ds)%Z else digitsVal ds
      else 0%Z
  | EmptyString => 0%Z
  end.

(** An unsigned [StrDecimalLiteral] at the head of [s]. *)
Definition unsignedLiteral (s : string) : option num :=
  if String.prefix "Infinity" s then Some PosInf else
  let '(ip, r1) := span Str.isDigit s in
  let '(fp, r2) :=
    match r1 with
    | String "." r => span Str.isDigit r
    | _ => (EmptyString, r1)
    end in
  if Str.isEmpty ip && Str.isEmpty fp then None
  else Some (decimal (digitsVal (ip ++ fp))
               (exponentPart r2 - Z.of_nat (String.length fp))).

(** [parseFloat(s)]: leading white space is skipped, the longest prefix
    that is a decimal literal is read, [None] is NaN. *)
Definition parseFloat (s : string) : option num :=
  match Str.trimStart s with
  | String "-" r => option_map negate (unsignedLiteral r)
  | String "+" r => unsignedLiteral r
  | r => unsignedLiteral r
  end.

(** The order of two doubles. *)
Definition compare (x y : num) : comparison :=
  match x, y with
  | NegInf, NegInf => Eq
  | NegInf, _ => Lt
  | _, NegInf => Gt
  | PosInf, PosInf => Eq
  | PosInf, _ => Gt
  | _, PosInf => Lt
  | Fin m1 e1, Fin m2 e2 =>
      let e := Z.min e1 e2 in
      (m1 * 2 ^ (e1 - e) ?= m2 * 2 ^ (e2 - e))%Z
  end.

(** The sign of [x - y]: the difference of two finite doubles is zero
    only when they are equal, and [Infinity - Infinity] is NaN, which
    [Array.prototype.sort] reads as [+0]. *)
Definition subSign (x y : num) : Z :=
  match compare x y with
  | Lt => (-1)%Z
  | Eq => 0%Z
  | Gt => 1%Z
  end.

(** [parseInt] of a string of decimal digits, as a row count. *)
Definition parseInt (s : string) : nat := Z.to_nat (digitsVal s).

End Num.


(** ** The data model *)

Abbreviation Row := (list string).

(** [CSVData]: the table a loader builds. *)
Record CSVData : Type := mkCSVData {
  headers : list string;
  rows : list Row
}.

(** [QueryResult], without [executionTime] (a wall clock reading that no
    decision depends on). A column name is [None] where the source reads
    [data.headers[i]] out of range and gets [undefined]. *)
Record QueryResult : Type := mkQueryResult {
  columns : list (option string);
  resultRows : list Row;
  rowCount : nat
}.

(** What a load comes to: a table, or an error for the caller (a rejected
    promise, a thrown exception). *)
Inductive outcome : Type :=
| Loaded (t : CSVData)
| Failed (message : string).

(** [len(row) == len(headers)] for every row. *)
Definition wellFormed (t : CSVData) : Prop :=
  Forall (fun r : Row => length r = length (headers t)) (rows t).

(** [arr.findIndex(p)], [None] for -1. *)
Fixpoint findIndex {A} (p : A -> bool) (l : list A) : option nat :=
  match l with
  | [] => None
  | x :: l' => if p x then Some 0 else option_map S (findIndex p l')
  end.

(** [row[i] || ''] *)
Definition cell (row : Row) (i : nat) : string := default "" (row !! i).

(** The row normalisation both loaders apply:
    [while (row.length < n) row.push(''); row.slice(0, n)]. *)
Definition padRow (n : nat) (row : Row) : Row :=
  row ++ repeat "" (n - length row).

Definition normalizeRow (n : nat) (row : Row) : Row :=
  firstn n (padRow n row).

(** ** The parts of [executeCSVQuery] that both copies share *)

Module Query.

(** [/select\s+(.*?)\s+from/i] *)
Definition re_select : regex :=
  lit "select" :+: plus ws :+: Grp 1 (lazyStar Dot) :+: plus ws :+: lit "from".

(** [/where\s+(.+?)(?:\s+order\s+by|\s+limit|$)/i] *)
Definition re_where : regex :=
  lit "where" :+: plus ws :+: Grp 1 (lazyPlus Dot) :+:
  Alt (plus ws :+: lit "order" :+: plus ws :+: lit "by")
      (Alt (plus ws :+: lit "limit") Eoi).

(** [/(\w+)\s+like\s+Q(.+)Q/i], where [Q] is the class of the single and
    the double quote. *)
Definition re_like : regex :=
  Grp 1 (plus word) :+: plus ws :+: lit "like" :+: plus ws :+:
  quote :+: Grp 2 (plus Dot) :+: quote.

(** [/order\s+by\s+(\w+)(?:\s+(asc|desc))?/i] *)
Definition re_order : regex :=
  lit "order" :+: plus ws :+: lit "by" :+: plus ws :+: Grp 1 (plus word) :+:
  Opt (plus ws :+: Grp 2 (Alt (lit "asc") (lit "desc"))).

(** [/limit\s+(\d+)/i] *)
Definition re_limit : regex :=
  lit "limit" :+: plus ws :+: Grp 1 (plus digit).

(** [query.toLowerCase().trim()] *)
Definition normalize (query : string) : string :=
  Str.trim (Str.toLowerCase query).

(** [data.headers.findIndex(h => h.toLowerCase() === col.toLowerCase())] *)
Definition headerIndex (headers : list string) (col : string) : option nat :=
  findIndex (fun h => String.eqb (Str.toLowerCase h) (Str.toLowerCase col)) headers.

(** [selectMatch[1]]: the text between [select] and [from]. *)
Definition selectMatch (normalizedQuery : string) : option string :=
  match exec re_select normalizedQuery with
  | Some m => Some (default "" (group 1 m))
  | None => None
  end.

(** [index >= 0 ? index : 0] *)
Definition columnIndexOf (headers : list string) (col : string) : nat :=
  match headerIndex headers col with
  | Some index => index
  | None => 0
  end.

(** The "Handle SELECT columns" block: [selectedColumns] and
    [columnIndices]. *)
Definition selectColumns (normalizedQuery : string) (headers : list string)
    : list (option string) * list nat :=
  match selectMatch normalizedQuery with
  | Some inner =>
      if negb (String.eqb (Str.trim inner) "*") then
        let columns := List.map Str.trim (Str.split "," inner) in
        let columnIndices := List.map (columnIndexOf headers) columns in
        (List.map (fun i => headers !! i) columnIndices, columnIndices)
      else (List.map Some headers, seq 0 (length headers))
  | None => (List.map Some headers, seq 0 (length headers))
  end.

(** [whereMatch[1]] *)
Definition whereMatch (normalizedQuery : string) : option string :=
  match exec re_where normalizedQuery with
  | Some m => Some (default "" (group 1 m))
  | None => None
  end.

(** [parseInt(limitMatch[1])] *)
Definition limitMatch (normalizedQuery : string) : option nat :=
  match exec re_limit normalizedQuery with
  | Some m => Some (Num.parseInt (default "" (group 1 m)))
  | None => None
  end.

(** [filteredRows.slice(0, limit)] when there is a LIMIT clause. *)
Definition applyLimit (normalizedQuery : string) (filteredRows : list Row)
    : list Row :=
  match limitMatch normalizedQuery with
  | Some limit => firstn limit filteredRows
  | None => filteredRows
  end.

(** [filteredRows.map(row => columnIndices.map(i => row[i] || ''))] *)
Definition project (columnIndices : list nat) (filteredRows : list Row)
    : list Row :=
  List.map (fun row => List.map (cell row) columnIndices) filteredRows.

(** The default response for unsupported queries. *)
Definition unsupported : QueryResult :=
  mkQueryResult [Some "message"]
    [["Query type not supported. Please use SELECT statements."]] 1.

End Query.

Import Query.

(** ** The edge function [execute-sql/index.ts]: [parseCSV] and
    [executeCSVQuery] *)

Module Server.

Definition dquote : ascii := ascii_of_nat 34.
Definition comma : ascii := ascii_of_nat 44.
Definition newline : ascii := ascii_of_nat 10.

Definition push (s : string) (c : ascii) : string := s ++ String c EmptyString.

(** [parseCSVLine]: the character loop, with its state [current],
    [inQuotes] and [result]. *)
Fixpoint parseCSVLine_from (line current : string) (inQuotes : bool)
    (result : list string) : list string :=
  match line with
  | EmptyString => result ++ [Str.trim current]
  | String char rest =>
      if Ascii.eqb char dquote then
        match inQuotes, rest with
        | true, String next rest' =>
            if Ascii.eqb next dquote
            then parseCSVLine_from rest' (push current dquote) inQuotes result
            else parseCSVLine_from rest current (negb inQuotes) result
        | _, _ => parseCSVLine_from rest current (negb inQuotes) result
        end
      else if Ascii.eqb char comma && negb inQuotes then
        parseCSVLine_from rest EmptyString inQuotes (result ++ [Str.trim current])
      else parseCSVLine_from rest (push current char) inQuotes result
  end.

Definition parseCSVLine (line : string) : list string :=
  parseCSVLine_from line EmptyString false [].

(** The [while] loop of [parseCSVRow]: [rest] holds the lines after
    [lineIndex], so [lineIndex + 1 < lines.length] reads [rest <> []]. *)
Fixpoint parseCSVRow_from (rest : list string) (currentLine : string)
    (lineIndex quoteCount : nat) : string * nat :=
  match rest with
  | next :: rest' =>
      if Nat.odd quoteCount then
        parseCSVRow_from rest' (currentLine ++ String newline next)
          (lineIndex + 1) (quoteCount + Str.count dquote next)
      else (currentLine, lineIndex)
  | [] => (currentLine, lineIndex)
  end.

(** [parseCSVRow(lines, startIndex)]: the parsed row and [nextIndex]. *)
Definition parseCSVRow (lines : list string) (startIndex : nat) : Row * nat :=
  let currentLine := default "" (lines !! startIndex) in
  let '(line, lineIndex) :=
    parseCSVRow_from (skipn (startIndex + 1) lines) currentLine startIndex
      (Str.count dquote currentLine) in
  (parseCSVLine line, lineIndex + 1).

Lemma parseCSVRow_from_index rest cur i n :
  i <= snd (parseCSVRow_from rest cur i n).
Proof.
  revert cur i n. induction rest as [|next rest IH]; intros cur i n; simpl.
  - lia.
  - destruct (Nat.odd n); simpl; [|lia].
    specialize (IH (cur ++ String newline next)%string (i + 1) (n + Str.count dquote next)).
    lia.
Qed.

Lemma parseCSVRow_next lines i : i < snd (parseCSVRow lines i).
Proof.
  unfold parseCSVRow.
  pose proof (parseCSVRow_from_index (skipn (i + 1) lines)
                (default "" (lines !! i)) i
                (Str.count dquote (default "" (lines !! i)))) as H.
  destruct (parseCSVRow_from _ _ _ _) as [line li]. simpl in *. lia.
Qed.

(** The [while (i < lines.length)] loop of [parseCSV]. *)
Equations? parseCSV_rows (lines : list string) (width : nat) (i : nat)
    (acc : list Row) : list Row by wf (length lines - i) lt :=
  parseCSV_rows lines width i acc with lt_dec i (length lines) => {
    | right _ := acc;
    | left _ with Str.isEmpty (Str.trim (default "" (lines !! i))) => {
        | true := parseCSV_rows lines width (i + 1) acc;
        | false with Logic.inspect (parseCSVRow lines i) => {
            | exist _ (row, nextIndex) Hrow :=
                parseCSV_rows lines width nextIndex
                  (if 0 <? length row
                   then acc ++ [normalizeRow width row]
                   else acc) } } }.
Proof.
  - lia.
  - pose proof (parseCSVRow_next lines i) as H. rewrite Hrow in H. simpl in H. lia.
Qed.

(** [parseCSV]. [split] never returns the empty list, so the early
    return on [lines.length === 0] is dead; it is kept as written. *)
Definition parseCSV (csvText : string) : CSVData :=
  let lines := Str.split newline csvText in
  match lines with
  | [] => mkCSVData [] []
  | line0 :: _ =>
      let headers := parseCSVLine line0 in
      mkCSVData headers (parseCSV_rows lines (length headers) 1 [])
  end.

(** The call [parseCSV(csvText)] in the request handler: nothing in
    [parseCSV] throws, so the handler always gets a table. *)
Definition load (csvText : string) : outcome := Loaded (parseCSV csvText).

(** *** The server engine: [executeCSVQuery] of [execute-sql/index.ts] *)

(** The callback of [data.rows.filter] in the WHERE block. A missing cell
    makes the optional chain on [row[columnIndex]] undefined, which
    [filter] reads as false. *)
Definition whereKeeps (headers : list string) (whereClause : string)
    (row : Row) : bool :=
  if Str.includes whereClause "=" then
    match List.map Str.trim (Str.split "=" whereClause) with
    | column :: value :: _ =>
        match headerIndex headers column with
        | Some columnIndex =>
            let cleanValue := Str.removeAll Str.isQuote value in
            match row !! columnIndex with
            | Some c =>
                Str.includes (Str.toLowerCase c) (Str.toLowerCase cleanValue)
            | None => false
            end
        | None => true
        end
    | _ => true
    end
  else true.

Definition executeCSVQuery (query : string) (data : CSVData) : QueryResult :=
  let normalizedQuery := normalize query in
  if Str.includes normalizedQuery "select" then
    let '(selectedColumns, columnIndices) :=
      selectColumns normalizedQuery (headers data) in
    let filteredRows :=
      match whereMatch normalizedQuery with
      | Some whereClause =>
          List.filter (whereKeeps (headers data) whereClause) (rows data)
      | None => rows data
      end in
    let filteredRows := applyLimit normalizedQuery filteredRows in
    let resultRows := project columnIndices filteredRows in
    mkQueryResult selectedColumns resultRows (length resultRows)
  else unsupported.

(** The stages of a call, as values: the array the WHERE block leaves,
    and the rows that reach the projection. *)
Definition filtered (query : string) (t : CSVData) : list Row :=
  match whereMatch (normalize query) with
  | Some whereClause =>
      List.filter (whereKeeps (headers t) whereClause) (rows t)
  | None => rows t
  end.

Definition survivors (query : string) (t : CSVData) : list Row :=
  applyLimit (normalize query) (filtered query t).

(** The request handler, once the text of the CSV file is read:
    [executeCSVQuery(query, parseCSV(csvText))]. *)
Definition respond (csvText query : string) : QueryResult :=
  executeCSVQuery query (parseCSV csvText).

End Server.

(** ** The client library: [loadCSVData] and [executeCSVQuery] of
    [csvUtils.ts] *)

Module Client.

(** [row.some(cell => cell && cell.trim() !== '')] *)
Definition hasContent (row : Row) : bool :=
  existsb (fun c => negb (Str.isEmpty c) && negb (Str.isEmpty (Str.trim c))) row.

(** The [complete] callback of [loadCSVData], as a function of
    [results.data], the records PapaParse hands over. *)
Definition loadCSVData (data : list Row) : outcome :=
  match data with
  | [] => Failed "No data found in CSV"
  | row0 :: rest =>
      let headers := List.map Str.trim row0 in
      let rows :=
        List.map (fun row =>
                    List.map Str.trim (normalizeRow (length headers) row))
          (List.filter hasContent rest) in
      Loaded (mkCSVData headers rows)
  end.

(** *** The store

    [data.rows] is an array object; [filteredRows] starts as a second
    name for it. Arrays of rows live in a store, [filter] and [slice]
    allocate, [sort] writes in place. *)

Definition loc := nat.
Abbreviation heap := (gmap loc (list Row)).

Definition M (A : Type) : Type := heap -> A * heap.

#[local] Instance M_ret : MRet M := fun A (x : A) h => (x, h).
#[local] Instance M_bind : MBind M :=
  fun A B (f : A -> M B) (m : M A) h => let '(x, h') := m h in f x h'.

Definition alloc (a : list Row) : M loc :=
  fun h => let l := fresh (dom h) in (l, <[l := a]> h).
Definition load (l : loc) : M (list Row) := fun h => (h !!! l, h).
Definition store (l : loc) (a : list Row) : M unit :=
  fun h => (tt, <[l := a]> h).

(** The table object: its headers, and the location of its rows array. *)
Record CSVObject : Type := mkCSVObject {
  obj_headers : list string;
  obj_rows : loc
}.

(** The table a store holds for an object. *)
Definition tableOf (data : CSVObject) (h : heap) : CSVData :=
  mkCSVData (obj_headers data) (h !!! obj_rows data).

(** [arr.sort(cmp)], stable: an element goes before the first one it does
    not follow. ECMAScript fixes the result for a consistent comparator
    only. *)
Section Sort.
Context {A : Type} (cmp : A -> A -> Z).

Fixpoint insertSorted (x : A) (l : list A) : list A :=
  match l with
  | [] => [x]
  | y :: l' => if (cmp x y <=? 0)%Z then x :: l else y :: insertSorted x l'
  end.

Fixpoint sortBy (l : list A) : list A :=
  match l with
  | [] => []
  | x :: l' => insertSorted x (sortBy l')
  end.
End Sort.

Section Engine.

(** [String.prototype.localeCompare]: the collation of the host. *)
Variable localeCompare : string -> string -> Z.

(** The callback of [data.rows.filter] in the WHERE block. *)
Definition whereKeeps (headers : list string) (whereClause : string)
    (row : Row) : bool :=
  if Str.includes whereClause "=" then
    match List.map Str.trim (Str.split "=" whereClause) with
    | column :: value :: _ =>
        match headerIndex headers column with
        | Some columnIndex =>
            let cleanValue :=
              Str.toLowerCase (Str.removeAll Str.isQuote value) in
            let cellValue := Str.toLowerCase (cell row columnIndex) in
            Str.includes cellValue cleanValue
        | None => true
        end
    | _ => true
    end
  else if Str.includes whereClause "like" then
    match exec re_like whereClause with
    | Some m =>
        let column := default "" (group 1 m) in
        let pattern := default "" (group 2 m) in
        match headerIndex headers column with
        | Some columnIndex =>
            let searchPattern :=
              Str.toLowerCase (Str.removeAll (Ascii.eqb "%") pattern) in
            let cellValue := Str.toLowerCase (cell row columnIndex) in
            Str.includes cellValue searchPattern
        | None => true
        end
    | None => true
    end
  else true.

(** [orderMatch]: the column token and the optional direction. *)
Definition orderMatch (normalizedQuery : string)
    : option (string * option string) :=
  match exec re_order normalizedQuery with
  | Some m => Some (default "" (group 1 m), group 2 m)
  | None => None
  end.

(** [direction?.toLowerCase() === 'desc'] *)
Definition isDesc (direction : option string) : bool :=
  match direction with
  | Some d => String.eqb (Str.toLowerCase d) "desc"
  | None => false
  end.

(** The comparator handed to [sort]; only its sign is kept for the
    numeric branch. *)
Definition compareRows (columnIndex : nat) (direction : option string)
    (a b : Row) : Z :=
  let aVal := cell a columnIndex in
  let bVal := cell b columnIndex in
  match Num.parseFloat aVal, Num.parseFloat bVal with
  | Some aNum, Some bNum =>
      if isDesc direction then Num.subSign bNum aNum else Num.subSign aNum bNum
  | _, _ =>
      let result := localeCompare aVal bVal in
      if isDesc direction then (- result)%Z else result
  end.

Definition executeCSVQuery (query : string) (data : CSVObject)
    : M QueryResult :=
  let normalizedQuery := normalize query in
  if Str.includes normalizedQuery "select" then
    let filteredRows := obj_rows data in
    let '(selectedColumns, columnIndices) :=
      selectColumns normalizedQuery (obj_headers data) in
    filteredRows ←
      match whereMatch normalizedQuery with
      | Some whereClause =>
          all ← load (obj_rows data);
          alloc (List.filter (whereKeeps (obj_headers data) whereClause) all)
      | None => mret filteredRows
      end;
    _ ←
      match orderMatch normalizedQuery with
      | Some (column, direction) =>
          match headerIndex (obj_headers data) column with
          | Some columnIndex =>
              arr ← load filteredRows;
              store filteredRows (sortBy (compareRows columnIndex direction) arr)
          | None => mret tt
          end
      | None => mret tt
      end;
    filteredRows ←
      match limitMatch normalizedQuery with
      | Some limit =>
          arr ← load filteredRows;
          alloc (firstn limit arr)
      | None => mret filteredRows
      end;
    arr ← load filteredRows;
    let resultRows := project columnIndices arr in
    mret (mkQueryResult selectedColumns resultRows (length resultRows))
  else mret unsupported.

(** A call on a table held in a store of its own. *)
Definition initial (t : CSVData) : CSVObject * heap :=
  (mkCSVObject (headers t) 0, {[ 0 := rows t ]}).

Definition execute (query : string) (t : CSVData) : QueryResult :=
  fst (executeCSVQuery query (fst (initial t)) (snd (initial t))).

(** The table as the call leaves it. *)
Definition tableAfter (query : string) (t : CSVData) : CSVData :=
  tableOf (fst (initial t))
    (snd (executeCSVQuery query (fst (initial t)) (snd (initial t)))).

(** *** The stages of a call, as values

    [filtered] is the array the WHERE block leaves in [filteredRows],
    [ordered] the array after the ORDER BY block has run on it. *)

Definition filtered (query : string) (t : CSVData) : list Row :=
  match whereMatch (normalize query) with
  | Some whereClause =>
      List.filter (whereKeeps (headers t) whereClause) (rows t)
  | None => rows t
  end.

Definition ordered (query : string) (t : CSVData) (arr : list Row)
    : list Row :=
  match orderMatch (normalize query) with
  | Some (column, direction) =>
      match headerIndex (headers t) column with
      | Some columnIndex => sortBy (compareRows columnIndex direction) arr
      | None => arr
      end
  | None => arr
  end.

(** The rows that reach the projection. *)
Definition survivors (query : string) (t : CSVData) : list Row :=
  applyLimit (normalize query) (ordered query t (filtered query t)).

(** *** The order ORDER BY is about

    [cellLe a b]: [a] may come before [b] in ascending order, that is,
    numerically when both cells parse as numbers, by the collation
    otherwise. [inOrder desc] turns it round for a descending sort.
    [transitiveOn keys]: on these cells the mixed order is transitive, which
    is what makes the comparator a consistent one for [sort]. *)

Definition cellLe (a b : string) : bool :=
  match Num.parseFloat a, Num.parseFloat b with
  | Some x, Some y =>
      match Num.compare x y with Gt => false | _ => true end
  | _, _ => (localeCompare a b <=? 0)%Z
  end.

Definition inOrder (desc : bool) (a b : string) : bool :=
  if desc then cellLe b a else cellLe a b.

Definition transitiveOn (keys : list string) : bool :=
  forallb (fun a =>
    forallb (fun b =>
      forallb (fun c => implb (cellLe a b && cellLe b c) (cellLe a c)) keys)
      keys) keys.

End Engine.

End Client.

(** A collation to run examples with: the order of the character codes. *)
Definition codeUnitCompare (a b : string) : Z :=
  match String.compare a b with
  | Lt => (-1)%Z
  | Eq => 0%Z
  | Gt => 1%Z
  end.

(** ** The WHERE rule for [=] as the specification words it

    "Split on the first [=] into column token and value token", the value
    token being the entire clause text after the first [=]. Used only to
    compare the engines with. *)

Module SpecWords.

Fixpoint splitFirst (sep : ascii) (s : string) : string * string :=
  match s with
  | EmptyString => (EmptyString, EmptyString)
  | String c r =>
      if Ascii.eqb c sep then (EmptyString, r)
      else let '(a, b) := splitFirst sep r in (String c a, b)
  end.

Definition equalsKeeps (headers : list string) (whereClause : string)
    (row : Row) : bool :=
  let '(column, value) := splitFirst "=" whereClause in
  match headerIndex headers (Str.trim column) with
  | Some columnIndex =>
      Str.includes (Str.toLowerCase (cell row columnIndex))
        (Str.toLowerCase (Str.removeAll Str.isQuote (Str.trim value)))
  | None => true
  end.

End SpecWords.

(** ** The rule-based generator: [generateSimpleSQL] of
    [SQLQueryGenerator.tsx] *)

Module Generator.

Definition generateSimpleSQL (query : string) : string :=
  let lowerQuery := Str.toLowerCase query in
  if Str.includes lowerQuery "all" && Str.includes lowerQuery "data" then
    "SELECT * FROM survey_data LIMIT 100"
  else if Str.includes lowerQuery "total income" then
    "SELECT * FROM survey_data WHERE Variable_name = 'Total income' LIMIT 50"
  else if Str.includes lowerQuery "agriculture"
          || Str.includes lowerQuery "farming" then
    "SELECT * FROM survey_data WHERE Industry_name_NZSIOC LIKE '%Agriculture%' LIMIT 50"
  else if Str.includes lowerQuery "financial performance" then
    "SELECT * FROM survey_data WHERE Variable_category = 'Financial performance' LIMIT 50"
  else if Str.includes lowerQuery "employment" then
    "SELECT * FROM survey_data WHERE Variable_category = 'Employment' LIMIT 50"
  else if Str.includes lowerQuery "industry" && Str.includes lowerQuery "top" then
    "SELECT Industry_name_NZSIOC, Value FROM survey_data WHERE Variable_name = 'Total income' ORDER BY CAST(Value AS DECIMAL) DESC LIMIT 10"
  else
    "SELECT * FROM survey_data LIMIT 20".

End Generator.

(** ** CSV text as a writer produces it

    Used only to describe inputs of the loader: [lines.join(sep)], and a
    field written between quotes with its own quotes doubled. *)

Module Csv.

Fixpoint join (sep : string) (l : list string) : string :=
  match l with
  | [] => EmptyString
  | [x] => x
  | x :: l' => x ++ sep ++ join sep l'
  end.

Fixpoint escapeQuotes (s : string) : string :=
  match s with
  | EmptyString => EmptyString
  | String c r =>
      if Ascii.eqb c Server.dquote
      then String Server.dquote (String Server.dquote (escapeQuotes r))
      else String c (escapeQuotes r)
  end.

Definition quoteField (s : string) : string :=
  String Server.dquote (escapeQuotes s ++ String Server.dquote EmptyString).

(** A record: its fields between quotes, joined by commas. A text: its
    records joined by line feeds. *)
Definition renderRow (fs : list string) : string :=
  join (String Server.comma EmptyString) (List.map quoteField fs).

Definition render (records : list (list string)) : string :=
  join (String Server.newline EmptyString) (List.map renderRow records).

(** [feedsQuoted n s]: every line feed of [s] has an odd number of quotes
    before it, [n] quotes having gone before [s]. *)
Fixpoint feedsQuoted (n : nat) (s : string) : bool :=
  match s with
  | EmptyString => true
  | String c r =>
      if Ascii.eqb c Server.newline then Nat.odd n && feedsQuoted n r
      else feedsQuoted ((if Ascii.eqb c Server.dquote then 1 else 0) + n) r
  end.

(** [balancedAfter n ps]: with [n] quotes so far, the quotes stay
    unbalanced until the last of the lines [ps] is added, and are
    balanced then. *)
Fixpoint balancedAfter (n : nat) (ps : list string) : bool :=
  match ps with
  | [] => Nat.even n
  | p :: ps' => Nat.odd n && balancedAfter (n + Str.count Server.dquote p) ps'
  end.

End Csv.

(** A string that does not begin with white space: what [trimStart]
    returns. *)
Definition startsClean (s : string) : Prop :=
  match s with
  | EmptyString => True
  | String c _ => Str.isSpace c = false
  end.

(** A result set whose rows all have one cell for each column, and whose
    row count is the number of its rows. *)
Definition rectangular (r : QueryResult) : Prop :=
  rowCount r = length (resultRows r)
  /\ Forall (fun row : Row => length row = length (columns r)) (resultRows r).

(** [numericLe a b]: both cells parse as numbers, and the number of [a]
    is at most that of [b]. *)
Definition numericLe (a b : string) : Prop :=
  match Num.parseFloat a, Num.parseFloat b with
  | Some x, Some y => Num.compare x y <> Gt
  | _, _ => False
  end.

(** * Properties *)

(** ** Strings *)

Lemma prefix_empty_r x : String.prefix x "" = true -> x = "".
Proof. destruct x; [reflexivity | discriminate]. Qed.

Lemma prefix_trimEnd x s :
  String.prefix x (Str.trimEnd s) = true -> String.prefix x s = true.
Proof.
  revert x. induction s as [|c r IH]; intros x; simpl; [auto|].
  destruct (Str.isSpace c && Str.isEmpty (Str.trimEnd r)).
  - intros H. apply prefix_empty_r in H. subst x. reflexivity.
  - destruct x as [|d x']; simpl; [auto|].
    destruct (ascii_dec d c); [apply IH | auto].
Qed.

Lemma includes_empty s : Str.includes s "" = true.
Proof. destruct s; reflexivity. Qed.

Lemma includes_trimEnd s x :
  Str.includes (Str.trimEnd s) x = true -> Str.includes s x = true.
Proof.
  induction s as [|c r IH]; [auto|].
  intros H. cbn [Str.includes]. apply orb_true_iff.
  assert (Hp := prefix_trimEnd x (String c r)).
  cbn [Str.trimEnd] in H, Hp.
  destruct (Str.isSpace c && Str.isEmpty (Str.trimEnd r)).
  - cbn [Str.includes] in H. rewrite orb_false_r in H. auto.
  - cbn [Str.includes] in H. apply orb_true_iff in H as [H|H]; auto.
Qed.

Lemma includes_trimStart s x :
  Str.includes (Str.trimStart s) x = true -> Str.includes s x = true.
Proof.
  induction s as [|c r IH]; [auto|].
  cbn [Str.trimStart]. destruct (Str.isSpace c); [|auto].
  intros H. cbn [Str.includes]. rewrite (IH H). apply orb_true_r.
Qed.

Lemma includes_trim s x :
  Str.includes (Str.trim s) x = true -> Str.includes s x = true.
Proof. intros H. apply includes_trimStart, includes_trimEnd, H. Qed.

Lemma not_includes_normalize query x :
  Str.includes (Str.toLowerCase query) x = false ->
  Str.includes (normalize query) x = false.
Proof.
  intros H. unfold normalize.
  destruct (Str.includes (Str.trim (Str.toLowerCase query)) x) eqn:E; [|reflexivity].
  apply includes_trim in E. congruence.
Qed.

Lemma lowerChar_idem (c : ascii) :
  Str.lowerChar (Str.lowerChar c) = Str.lowerChar c.
Proof. destruct c as [[] [] [] [] [] [] [] []]; reflexivity. Qed.

Lemma isSpace_lowerChar (c : ascii) :
  Str.isSpace (Str.lowerChar c) = Str.isSpace c.
Proof. destruct c as [[] [] [] [] [] [] [] []]; reflexivity. Qed.

Lemma toLowerCase_idem (s : string) :
  Str.toLowerCase (Str.toLowerCase s) = Str.toLowerCase s.
Proof.
  induction s as [|c r IH]; simpl; [reflexivity|].
  rewrite lowerChar_idem, IH. reflexivity.
Qed.

Lemma toLowerCase_app (p s : string) :
  Str.toLowerCase (p ++ s) = (Str.toLowerCase p ++ Str.toLowerCase s)%string.
Proof.
  induction p as [|c p IH]; simpl; [reflexivity|]. rewrite IH. reflexivity.
Qed.

Lemma toLowerCase_trimStart (s : string) :
  Str.toLowerCase (Str.trimStart s) = Str.trimStart (Str.toLowerCase s).
Proof.
  induction s as [|c r IH]; simpl; [reflexivity|].
  rewrite isSpace_lowerChar. destruct (Str.isSpace c); [exact IH | reflexivity].
Qed.

Lemma toLowerCase_trimEnd (s : string) :
  Str.toLowerCase (Str.trimEnd s) = Str.trimEnd (Str.toLowerCase s).
Proof.
  induction s as [|c r IH]; simpl; [reflexivity|].
  rewrite isSpace_lowerChar, <- IH.
  destruct (Str.trimEnd r); simpl; destruct (Str.isSpace c); reflexivity.
Qed.

(** A normalised query is in lower case already. *)
Lemma normalize_lower (query : string) :
  Str.toLowerCase (normalize query) = normalize query.
Proof.
  unfold normalize, Str.trim.
  rewrite toLowerCase_trimEnd, toLowerCase_trimStart, toLowerCase_idem.
  reflexivity.
Qed.

Lemma append_assoc (a b c : string) :
  ((a ++ b) ++ c)%string = (a ++ (b ++ c))%string.
Proof.
  induction a as [|x a IH]; [reflexivity|].
  change (String x ((a ++ b) ++ c) = String x (a ++ (b ++ c)))%string.
  rewrite IH. reflexivity.
Qed.

Lemma includes_suffix (p s x : string) :
  Str.includes s x = true -> Str.includes (p ++ s) x = true.
Proof.
  intros H. induction p as [|c p IH]; [exact H|].
  change (String c p ++ s)%string with (String c (p ++ s)%string).
  cbn [Str.includes]. rewrite IH. apply orb_true_r.
Qed.

Lemma prefix_includes (s x : string) :
  String.prefix x s = true -> Str.includes s x = true.
Proof. intros H. destruct s; cbn [Str.includes]; rewrite H; reflexivity. Qed.

(** ** The matcher *)

Lemma repeatFrom_continues {R}
    (body : string -> captures -> (string -> captures -> option R) -> option R)
    (greedy : bool) (k : string -> captures -> option R) (x : R) :
  (forall s c k' x, body s c k' = Some x ->
     exists s' c', (exists p, s = (p ++ s')%string) /\ k' s' c' = Some x) ->
  forall fuel need s c,
    repeatFrom body greedy k fuel need s c = Some x ->
    exists s' c', (exists p, s = (p ++ s')%string) /\ k s' c' = Some x.
Proof.
  intros Hbody. induction fuel as [|fuel IHf]; intros need s c;
    [discriminate|].
  cbn [repeatFrom]. set (again := body s c _).
  assert (Hagain : again = Some x ->
            exists s' c', (exists p, s = (p ++ s')%string) /\ k s' c' = Some x).
  { unfold again. intros H. apply Hbody in H as (s1 & c1 & [p1 ->] & H).
    destruct (_ <? _); [|discriminate].
    apply IHf in H as (s2 & c2 & [p2 ->] & H).
    exists s2, c2. split; [|exact H].
    exists (p1 ++ p2)%string. symmetry. apply append_assoc. }
  assert (Hhere : k s c = Some x ->
            exists s' c', (exists p, s = (p ++ s')%string) /\ k s' c' = Some x).
  { intros H. exists s, c. split; [exists ""; reflexivity | exact H]. }
  destruct (0 <? need); [exact Hagain|].
  unfold orElse. destruct greedy.
  - destruct again; [|exact Hhere]. intros [= <-]. apply Hagain. reflexivity.
  - destruct (k s c); [|exact Hagain]. intros [= <-]. apply Hhere. reflexivity.
Qed.

(** A successful match is the continuation's success on a suffix of the
    input. *)
Lemma run_continues {R} (r : regex) :
  forall (s : string) (c : captures)
         (k : string -> captures -> option R) (x : R),
    run r s c k = Some x ->
    exists s' c', (exists p, s = (p ++ s')%string) /\ k s' c' = Some x.
Proof.
  induction r as [|a|p| | |r1 IH1 r2 IH2|r1 IH1 r2 IH2|greedy mn r1 IH1|r1 IH1
                 |n r1 IH1]; intros s c k x; cbn [run].
  - intros H. exists s, c. split; [exists ""; reflexivity | exact H].
  - destruct s as [|b t]; [discriminate|].
    destruct (Ascii.eqb _ _); [|discriminate].
    intros H. exists t, c. split; [exists (String b ""); reflexivity | exact H].
  - destruct s as [|b t]; [discriminate|].
    destruct (p b); [|discriminate].
    intros H. exists t, c. split; [exists (String b ""); reflexivity | exact H].
  - destruct s as [|b t]; [discriminate|].
    destruct (Str.isLineTerminator b); [discriminate|].
    intros H. exists t, c. split; [exists (String b ""); reflexivity | exact H].
  - destruct s as [|b t]; [|discriminate].
    intros H. exists "", c. split; [exists ""; reflexivity | exact H].
  - intros H. apply IH1 in H as (s1 & c1 & [p1 ->] & H).
    apply IH2 in H as (s2 & c2 & [p2 ->] & H).
    exists s2, c2. split; [|exact H].
    exists (p1 ++ p2)%string. symmetry. apply append_assoc.
  - unfold orElse. destruct (run r1 s c k) eqn:E1.
    + intros [= <-]. eapply IH1, E1.
    + apply IH2.
  - apply repeatFrom_continues. exact IH1.
  - unfold orElse. destruct (run r1 s c k) eqn:E1.
    + intros [= <-]. eapply IH1, E1.
    + intros H. exists s, c. split; [exists ""; reflexivity | exact H].
  - intros H. apply IH1 in H as (s1 & c1 & Hp & H). eauto.
Qed.

(** The matcher reads its continuation pointwise. *)
Lemma repeatFrom_ext {R}
    (body : string -> captures -> (string -> captures -> option R) -> option R)
    (greedy : bool) (k1 k2 : string -> captures -> option R) :
  (forall s c ka kb, (forall s' c', ka s' c' = kb s' c') ->
     body s c ka = body s c kb) ->
  (forall s c, k1 s c = k2 s c) ->
  forall fuel need s c,
    repeatFrom body greedy k1 fuel need s c =
    repeatFrom body greedy k2 fuel need s c.
Proof.
  intros Hbody Hk. induction fuel as [|fuel IHf]; intros need s c;
    [reflexivity|].
  cbn [repeatFrom]. rewrite (Hk s c).
  rewrite (Hbody s c _
             (fun s' c' =>
                if String.length s' <? String.length s
                then repeatFrom body greedy k2 fuel (pred need) s' c'
                else None)); [reflexivity|].
  intros s' c'. destruct (_ <? _); [apply IHf | reflexivity].
Qed.

Lemma run_ext {R} (r : regex) :
  forall (s : string) (c : captures) (k1 k2 : string -> captures -> option R),
    (forall s' c', k1 s' c' = k2 s' c') -> run r s c k1 = run r s c k2.
Proof.
  induction r as [|a|p| | |r1 IH1 r2 IH2|r1 IH1 r2 IH2|greedy mn r1 IH1|r1 IH1
                 |n r1 IH1]; intros s c k1 k2 Hk; cbn [run].
  - apply Hk.
  - destruct s; [reflexivity|]. destruct (Ascii.eqb _ _); [apply Hk | reflexivity].
  - destruct s; [reflexivity|]. destruct (p _); [apply Hk | reflexivity].
  - destruct s; [reflexivity|].
    destruct (Str.isLineTerminator _); [reflexivity | apply Hk].
  - destruct s; [apply Hk | reflexivity].
  - apply IH1. intros s' c'. apply IH2, Hk.
  - rewrite (IH1 s c k1 k2 Hk), (IH2 s c k1 k2 Hk). reflexivity.
  - apply repeatFrom_ext; [exact IH1 | exact Hk].
  - rewrite (IH1 s c k1 k2 Hk), (Hk s c). reflexivity.
  - apply IH1. intros s' c'. apply Hk.
Qed.

(** The fuel of a quantifier is never the reason for a failure: any
    amount above the length of the input gives the same result. *)
Lemma repeatFrom_fuel {R} (r : regex) (greedy : bool)
    (k : string -> captures -> option R) :
  forall fuel1 fuel2 need s c,
    String.length s < fuel1 -> String.length s < fuel2 ->
    repeatFrom (run r) greedy k fuel1 need s c =
    repeatFrom (run r) greedy k fuel2 need s c.
Proof.
  induction fuel1 as [|fuel1 IHf]; intros fuel2 need s c H1 H2; [lia|].
  destruct fuel2 as [|fuel2]; [lia|].
  cbn [repeatFrom].
  rewrite (run_ext r s c _
             (fun s' c' =>
                if String.length s' <? String.length s
                then repeatFrom (run r) greedy k fuel2 (pred need) s' c'
                else None)); [reflexivity|].
  intros s' c'. destruct (Nat.ltb_spec (String.length s') (String.length s));
    [apply IHf; lia | reflexivity].
Qed.

Lemma quantifier_fuel_suffices {R} (r : regex) (greedy : bool) (mn : nat)
    (k : string -> captures -> option R) (fuel : nat) (s : string)
    (c : captures) :
  String.length s < fuel ->
  repeatFrom (run r) greedy k fuel mn s c = run (Rep greedy mn r) s c k.
Proof. intros H. cbn [run]. apply repeatFrom_fuel; lia. Qed.

Lemma exec_starts (r : regex) (s : string) (m : captures) :
  exec r s = Some m ->
  exists p s0, s = (p ++ s0)%string /\
    run r s0 []
      (fun s' c =>
         Some ((0, Str.take (String.length s0 - String.length s') s0) :: c)) =
    Some m.
Proof.
  induction s as [|b t IH]; cbn [exec]; unfold orElse.
  - destruct (run r "" [] _) eqn:E; [|discriminate].
    intros [= <-]. exists "", "". split; [reflexivity | exact E].
  - destruct (run r (String b t) [] _) eqn:E.
    + intros [= <-]. exists "", (String b t). split; [reflexivity | exact E].
    + intros H. apply IH in H as (p & s0 & -> & H).
      exists (String b p), s0. split; [reflexivity | exact H].
Qed.

Lemma lit_from_prefix {R} (s : string) (c : captures)
    (k : string -> captures -> option R) (x : R) :
  run (lit "from") s c k = Some x ->
  String.prefix "from" (Str.toLowerCase s) = true.
Proof.
  cbn [lit run].
  destruct s as [|b1 s]; [discriminate|].
  destruct (Ascii.eqb_spec (Str.lowerChar "f") (Str.lowerChar b1)) as [E1|];
    [|discriminate].
  destruct s as [|b2 s]; [discriminate|].
  destruct (Ascii.eqb_spec (Str.lowerChar "r") (Str.lowerChar b2)) as [E2|];
    [|discriminate].
  destruct s as [|b3 s]; [discriminate|].
  destruct (Ascii.eqb_spec (Str.lowerChar "o") (Str.lowerChar b3)) as [E3|];
    [|discriminate].
  destruct s as [|b4 s]; [discriminate|].
  destruct (Ascii.eqb_spec (Str.lowerChar "m") (Str.lowerChar b4)) as [E4|];
    [|discriminate].
  intros _. cbn [Str.toLowerCase]. rewrite <- E1, <- E2, <- E3, <- E4.
  destruct (Str.toLowerCase s); reflexivity.
Qed.

(** Where the select pattern matches, the text holds [from]. *)
Lemma select_match_needs_from (s : string) (m : captures) :
  exec re_select s = Some m ->
  Str.includes (Str.toLowerCase s) "from" = true.
Proof.
  intros H. apply exec_starts in H as (p0 & s0 & -> & H).
  unfold re_select in H. cbn [run] in H.
  apply (run_continues (lit "select")) in H as (s1 & c1 & [p1 ->] & H).
  apply (run_continues (plus ws)) in H as (s2 & c2 & [p2 ->] & H).
  apply (run_continues (lazyStar Dot)) in H as (s3 & c3 & [p3 ->] & H).
  apply (run_continues (plus ws)) in H as (s4 & c4 & [p4 ->] & H).
  rewrite !toLowerCase_app. do 5 apply includes_suffix.
  apply prefix_includes. exact (lit_from_prefix _ _ _ _ H).
Qed.

(** ** Rows and projections *)

Lemma map_cell_seq (row : Row) :
  List.map (cell row) (seq 0 (length row)) = row.
Proof.
  induction row as [|x row IH]; [reflexivity|].
  cbn [length seq List.map]. f_equal.
  rewrite <- seq_shift, List.map_map. exact IH.
Qed.

Lemma project_all (n : nat) (arr : list Row) :
  Forall (fun r : Row => length r = n) arr ->
  project (seq 0 n) arr = arr.
Proof.
  induction 1 as [|r arr Hr _ IH]; [reflexivity|].
  cbn [project List.map]. fold (project (seq 0 n) arr).
  rewrite IH, <- Hr, map_cell_seq. reflexivity.
Qed.

Lemma lookup_map {A B} (f : A -> B) (l : list A) (k : nat) :
  List.map f l !! k = option_map f (l !! k).
Proof.
  revert k. induction l as [|x l IH]; intros [|k]; simpl; auto.
Qed.

Lemma project_column (columnIndices : list nat) (arr : list Row) (k i : nat) :
  columnIndices !! k = Some i ->
  List.map (fun r : Row => r !! k) (project columnIndices arr) =
  List.map (fun src : Row => Some (cell src i)) arr.
Proof.
  intros Hk. unfold project. rewrite List.map_map.
  apply List.map_ext. intros src. cbv beta. rewrite lookup_map, Hk. reflexivity.
Qed.

Lemma findIndex_none {A} (p : A -> bool) (l : list A) :
  Forall (fun x => p x = false) l -> findIndex p l = None.
Proof.
  induction 1 as [|x l Hx _ IH]; simpl; [reflexivity|].
  rewrite Hx, IH. reflexivity.
Qed.

Lemma headerIndex_none (hs : list string) (token : string) :
  Forall (fun h => Str.toLowerCase h <> Str.toLowerCase token) hs ->
  headerIndex hs token = None.
Proof.
  intros H. apply findIndex_none.
  eapply List.Forall_impl; [|exact H]. intros h Hh. cbv beta.
  apply String.eqb_neq. exact Hh.
Qed.

Lemma firstn_incl {A} (n : nat) (l : list A) : incl (firstn n l) l.
Proof.
  revert n. induction l as [|x l IH]; intros [|n] y Hy; simpl in *;
    try contradiction.
  destruct Hy as [->|Hy]; [left; reflexivity | right; exact (IH n y Hy)].
Qed.

Lemma applyLimit_incl (nq : string) (arr : list Row) :
  incl (applyLimit nq arr) arr.
Proof.
  unfold applyLimit. destruct (limitMatch nq); [apply firstn_incl | apply incl_refl].
Qed.

(** ** Sorting *)

Section SortFacts.
Context {A : Type} (cmp : A -> A -> Z).

Lemma insertSorted_perm (x : A) (l : list A) :
  Permutation (Client.insertSorted cmp x l) (x :: l).
Proof.
  induction l as [|y l IH]; simpl; [reflexivity|].
  destruct (cmp x y <=? 0)%Z; [reflexivity|].
  rewrite IH. apply perm_swap.
Qed.

Lemma sortBy_perm (l : list A) : Permutation (Client.sortBy cmp l) l.
Proof.
  induction l as [|x l IH]; simpl; [reflexivity|].
  rewrite insertSorted_perm, IH. reflexivity.
Qed.

Lemma insertSorted_sorted (x : A) (l : list A) :
  (forall y, In y l -> (0 < cmp x y)%Z -> (cmp y x <= 0)%Z) ->
  (forall y z, In y l -> In z l ->
     (cmp x y <= 0)%Z -> (cmp y z <= 0)%Z -> (cmp x z <= 0)%Z) ->
  StronglySorted (fun u v => (cmp u v <= 0)%Z) l ->
  StronglySorted (fun u v => (cmp u v <= 0)%Z) (Client.insertSorted cmp x l).
Proof.
  induction l as [|y l IH]; intros Htot Htr Hs; simpl.
  - constructor; constructor.
  - apply StronglySorted_inv in Hs as [Hs Hy].
    destruct (Z.leb_spec (cmp x y) 0) as [Hle|Hgt].
    + constructor; [constructor; assumption|].
      constructor; [exact Hle|].
      rewrite List.Forall_forall in Hy |- *. intros z Hz.
      apply (Htr y z); simpl; auto.
    + constructor.
      * apply IH; [| |exact Hs].
        -- intros z Hz. apply Htot. right. exact Hz.
        -- intros z w Hz Hw. apply Htr; right; assumption.
      * eapply Permutation_Forall;
          [apply Permutation_sym, insertSorted_perm|].
        constructor; [|exact Hy].
        apply Htot; [left; reflexivity | exact Hgt].
Qed.

Lemma sortBy_sorted (l : list A) :
  (forall x y, In x l -> In y l -> (0 < cmp x y)%Z -> (cmp y x <= 0)%Z) ->
  (forall x y z, In x l -> In y l -> In z l ->
     (cmp x y <= 0)%Z -> (cmp y z <= 0)%Z -> (cmp x z <= 0)%Z) ->
  StronglySorted (fun u v => (cmp u v <= 0)%Z) (Client.sortBy cmp l).
Proof.
  induction l as [|x l IH]; intros Htot Htr; simpl; [constructor|].
  assert (Hin : forall y, In y (Client.sortBy cmp l) -> In y l).
  { intros y. apply Permutation_in, sortBy_perm. }
  apply insertSorted_sorted.
  - intros y Hy. apply Htot; [left; reflexivity | right; auto].
  - intros y z Hy Hz. apply Htr; [left; reflexivity | right; auto | right; auto].
  - apply IH.
    + intros y z Hy Hz. apply Htot; right; assumption.
    + intros y z w Hy Hz Hw. apply Htr; right; assumption.
Qed.

End SortFacts.

Lemma StronglySorted_weaken {A} (R R' : A -> A -> Prop) (l : list A) :
  (forall x y, In x l -> In y l -> R x y -> R' x y) ->
  StronglySorted R l -> StronglySorted R' l.
Proof.
  induction l as [|x l IH]; intros HR Hs; [constructor|].
  apply StronglySorted_inv in Hs as [Hs Hx]. constructor.
  - apply IH; [|exact Hs]. intros y z Hy Hz. apply HR; right; assumption.
  - rewrite List.Forall_forall in Hx |- *. intros y Hy.
    apply HR; [left; reflexivity | right; exact Hy | exact (Hx y Hy)].
Qed.

(** ** Numbers *)

Lemma num_compare_antisym (x y : Num.num) :
  Num.compare y x = CompOpp (Num.compare x y).
Proof.
  destruct x as [|m1 e1|], y as [|m2 e2|]; try reflexivity.
  cbn [Num.compare]. rewrite (Z.min_comm e2 e1). apply Z.compare_antisym.
Qed.

(** ** The client engine as a pipeline *)

(** Unfold the operations on the store. *)
Ltac store_steps :=
  unfold mbind, Client.M_bind, mret, Client.M_ret, Client.load, Client.store,
    Client.alloc.

(** A call of the engine on a table in its own store, opened up to the
    branch on [select]. *)
Ltac open_call :=
  unfold Client.execute, Client.tableAfter, Client.tableOf,
    Client.executeCSVQuery, Client.initial;
  cbn [fst snd Client.obj_headers Client.obj_rows headers rows].

(** One case for each way the WHERE, ORDER BY and LIMIT patterns can
    match or not. *)
Ltac by_clauses query hs :=
  let column := fresh "column" in
  let direction := fresh "direction" in
  destruct (whereMatch (normalize query)) as [?|];
  destruct (Client.orderMatch (normalize query)) as [[column direction]|];
  try destruct (headerIndex hs column) as [?|];
  destruct (limitMatch (normalize query)) as [?|];
  cbn [fst snd].

Section ClientPipeline.

Variable localeCompare : string -> string -> Z.

Lemma execute_select query t :
  Str.includes (normalize query) "select" = true ->
  Client.execute localeCompare query t =
    let '(selectedColumns, columnIndices) :=
      selectColumns (normalize query) (headers t) in
    let resultRows := project columnIndices (Client.survivors localeCompare query t) in
    mkQueryResult selectedColumns resultRows (length resultRows).
Proof.
  intros Hsel.
  unfold Client.survivors, applyLimit, Client.ordered, Client.filtered.
  open_call. rewrite Hsel.
  destruct (selectColumns (normalize query) (headers t)) as [sc ci].
  store_steps. by_clauses query (headers t);
    repeat (rewrite ?lookup_total_insert_eq, ?lookup_total_singleton_eq);
    reflexivity.
Qed.

Lemma execute_unsupported query t :
  Str.includes (normalize query) "select" = false ->
  Client.execute localeCompare query t = unsupported.
Proof.
  intros Hsel. unfold Client.execute, Client.executeCSVQuery. cbn [fst snd]. rewrite Hsel. reflexivity.
Qed.


Lemma ordered_perm query t arr :
  Permutation (Client.ordered localeCompare query t arr) arr.
Proof.
  unfold Client.ordered.
  destruct (Client.orderMatch (normalize query)) as [[column direction]|];
    [|reflexivity].
  destruct (headerIndex (headers t) column); [apply sortBy_perm | reflexivity].
Qed.

Lemma filtered_incl query t :
  incl (Client.filtered query t) (rows t).
Proof.
  unfold Client.filtered.
  destruct (whereMatch (normalize query)); [apply incl_filter | apply incl_refl].
Qed.

Lemma survivors_incl query t :
  incl (Client.survivors localeCompare query t) (rows t).
Proof.
  unfold Client.survivors. intros r Hr.
  apply applyLimit_incl in Hr.
  apply (Permutation_in _ (ordered_perm query t _)) in Hr.
  exact (filtered_incl query t r Hr).
Qed.

End ClientPipeline.

(** ** The server engine as a pipeline *)

Lemma server_execute_select query t :
  Str.includes (normalize query) "select" = true ->
  Server.executeCSVQuery query t =
    let '(selectedColumns, columnIndices) :=
      selectColumns (normalize query) (headers t) in
    let resultRows := project columnIndices (Server.survivors query t) in
    mkQueryResult selectedColumns resultRows (length resultRows).
Proof.
  intros Hsel. unfold Server.executeCSVQuery. rewrite Hsel. reflexivity.
Qed.

Lemma server_execute_unsupported query t :
  Str.includes (normalize query) "select" = false ->
  Server.executeCSVQuery query t = unsupported.
Proof.
  intros Hsel. unfold Server.executeCSVQuery. rewrite Hsel. reflexivity.
Qed.

Lemma server_survivors_incl query t :
  incl (Server.survivors query t) (rows t).
Proof.
  unfold Server.survivors, Server.filtered. intros r Hr.
  apply applyLimit_incl in Hr.
  destruct (whereMatch (normalize query)); [|exact Hr].
  exact (incl_filter _ _ r Hr).
Qed.

Lemma wellFormed_incl (t : CSVData) (arr : list Row) :
  wellFormed t -> incl arr (rows t) ->
  Forall (fun r : Row => length r = length (headers t)) arr.
Proof.
  unfold wellFormed. rewrite !List.Forall_forall. intros Hwf Hincl r Hr.
  apply Hwf, Hincl, Hr.
Qed.

(** ** Queries without SELECT *)

(** C4. A query whose lower-cased text does not contain [select] is
    answered, by the client and by the server engine alike, with the fixed
    result set: the single column [message], one row holding the sentence
    "Query type not supported. Please use SELECT statements.", and a row
    count of 1. *)
Theorem unsupported_query_fallback
    (localeCompare : string -> string -> Z) (query : string) (t : CSVData) :
  Str.includes (Str.toLowerCase query) "select" = false ->
  Client.execute localeCompare query t =
    mkQueryResult [Some "message"]
      [["Query type not supported. Please use SELECT statements."]] 1
  /\ Server.executeCSVQuery query t =
    mkQueryResult [Some "message"]
      [["Query type not supported. Please use SELECT statements."]] 1.
Proof.
  intros H. apply not_includes_normalize in H. split.
  - rewrite execute_unsupported by exact H. reflexivity.
  - rewrite server_execute_unsupported by exact H. reflexivity.
Qed.

Lemma unsupported_query_fallback_witness :
  Str.includes (Str.toLowerCase "DROP TABLE survey_data") "select" = false
  /\ (Client.execute codeUnitCompare "DROP TABLE survey_data"
        (mkCSVData ["Year"; "Value"] [["2024"; "17"]]) =
      mkQueryResult [Some "message"]
        [["Query type not supported. Please use SELECT statements."]] 1
      /\ Server.executeCSVQuery "DROP TABLE survey_data"
        (mkCSVData ["Year"; "Value"] [["2024"; "17"]]) =
      mkQueryResult [Some "message"]
        [["Query type not supported. Please use SELECT statements."]] 1).
Proof.
  split; [reflexivity|].
  apply (unsupported_query_fallback codeUnitCompare). reflexivity.
Defined.

(** ** The wildcard query *)

Lemma star_query_normalized : normalize "SELECT * FROM t" = "select * from t".
Proof. reflexivity. Qed.

Lemma star_query_columns (hs : list string) :
  selectColumns "select * from t" hs = (List.map Some hs, seq 0 (length hs)).
Proof. reflexivity. Qed.

(** C9. On a table whose rows all have as many cells as there are headers,
    [SELECT * FROM t] returns the headers as columns, the rows of the table
    unchanged and in their order, and their number as row count; this holds
    for the client and for the server engine. *)
Theorem select_star_returns_table
    (localeCompare : string -> string -> Z) (t : CSVData) :
  wellFormed t ->
  Client.execute localeCompare "SELECT * FROM t" t =
    mkQueryResult (List.map Some (headers t)) (rows t) (length (rows t))
  /\ Server.executeCSVQuery "SELECT * FROM t" t =
    mkQueryResult (List.map Some (headers t)) (rows t) (length (rows t)).
Proof.
  intros Hwf. split.
  - rewrite execute_select by reflexivity.
    rewrite star_query_normalized, star_query_columns.
    change (Client.survivors localeCompare "SELECT * FROM t" t) with (rows t).
    cbv zeta. rewrite (project_all _ _ Hwf). reflexivity.
  - rewrite server_execute_select by reflexivity.
    rewrite star_query_normalized, star_query_columns.
    change (Server.survivors "SELECT * FROM t" t) with (rows t).
    cbv zeta. rewrite (project_all _ _ Hwf). reflexivity.
Qed.

Lemma select_star_returns_table_witness :
  wellFormed (mkCSVData ["Year"; "Value"] [["2024"; "17"]; ["2023"; ""]])
  /\ (Client.execute codeUnitCompare "SELECT * FROM t"
        (mkCSVData ["Year"; "Value"] [["2024"; "17"]; ["2023"; ""]]) =
      mkQueryResult [Some "Year"; Some "Value"] [["2024"; "17"]; ["2023"; ""]] 2
      /\ Server.executeCSVQuery "SELECT * FROM t"
        (mkCSVData ["Year"; "Value"] [["2024"; "17"]; ["2023"; ""]]) =
      mkQueryResult [Some "Year"; Some "Value"] [["2024"; "17"]; ["2023"; ""]] 2).
Proof.
  assert (Hwf : wellFormed
            (mkCSVData ["Year"; "Value"] [["2024"; "17"]; ["2023"; ""]])).
  { repeat constructor. }
  split; [exact Hwf|].
  exact (select_star_returns_table codeUnitCompare _ Hwf).
Defined.

(** ** Column selection *)

(** C10. When the query contains [select] but the pattern of [select],
    a column list and [from] does not occur in it, both engines return
    every header, in table order, as columns, and a well-formed table's
    surviving rows come out whole: the rows of the result are the rows
    that reach the projection, each of them a row of the table. *)
Theorem no_select_from_pattern_selects_all
    (localeCompare : string -> string -> Z) (query : string) (t : CSVData) :
  Str.includes (normalize query) "select" = true ->
  selectMatch (normalize query) = None ->
  wellFormed t ->
  (columns (Client.execute localeCompare query t) = List.map Some (headers t)
   /\ resultRows (Client.execute localeCompare query t) =
       Client.survivors localeCompare query t
   /\ incl (Client.survivors localeCompare query t) (rows t))
  /\
  (columns (Server.executeCSVQuery query t) = List.map Some (headers t)
   /\ resultRows (Server.executeCSVQuery query t) =
       Server.survivors query t
   /\ incl (Server.survivors query t) (rows t)).
Proof.
  intros Hsel Hnone Hwf. split.
  - rewrite execute_select by exact Hsel.
    unfold selectColumns. rewrite Hnone. cbn [columns resultRows].
    repeat split.
    + apply project_all, wellFormed_incl; [exact Hwf | apply survivors_incl].
    + apply survivors_incl.
  - rewrite server_execute_select by exact Hsel.
    unfold selectColumns. rewrite Hnone. cbn [columns resultRows].
    repeat split.
    + apply project_all, wellFormed_incl;
        [exact Hwf | apply server_survivors_incl].
    + apply server_survivors_incl.
Qed.

Lemma no_select_from_pattern_selects_all_witness :
  let t := mkCSVData ["Year"; "Value"] [["2024"; "17"]; ["2023"; "4"]] in
  let query := "SELECT value" in
  (Str.includes (normalize query) "select" = true
   /\ selectMatch (normalize query) = None
   /\ wellFormed t)
  /\ columns (Client.execute codeUnitCompare query t) =
       [Some "Year"; Some "Value"]
  /\ resultRows (Client.execute codeUnitCompare query t) =
       [["2024"; "17"]; ["2023"; "4"]]
  /\ columns (Server.executeCSVQuery query t) =
       [Some "Year"; Some "Value"]
  /\ resultRows (Server.executeCSVQuery query t) =
       [["2024"; "17"]; ["2023"; "4"]].
Proof.
  intros t query.
  assert (Hwf : wellFormed t) by (repeat constructor).
  assert (Hsel : Str.includes (normalize query) "select" = true) by reflexivity.
  assert (Hnone : selectMatch (normalize query) = None) by reflexivity.
  split; [auto|].
  destruct (no_select_from_pattern_selects_all codeUnitCompare query t
              Hsel Hnone Hwf) as [[Hc [Hr _]] [Hc' [Hr' _]]].
  rewrite Hc, Hr, Hc', Hr'. repeat split.
Defined.

(** The first shape the claim names: a query without [from] has no match
    for the select pattern. *)
Lemma query_without_from_has_no_select_match (query : string) :
  Str.includes (Str.toLowerCase query) "from" = false ->
  selectMatch (normalize query) = None.
Proof.
  intros H. unfold selectMatch.
  destruct (exec re_select (normalize query)) as [m|] eqn:E; [|reflexivity].
  apply select_match_needs_from in E. rewrite normalize_lower in E.
  apply includes_trim in E. congruence.
Qed.

(** The second shape the claim names: no white space after [select]. *)
Example select_glued_to_columns :
  selectMatch (normalize "SELECTvalue FROM t") = None
  /\ columns (Server.executeCSVQuery "SELECTvalue FROM t"
               (mkCSVData ["Year"; "Value"] [["2024"; "17"]])) =
     [Some "Year"; Some "Value"].
Proof. split; reflexivity. Qed.

(** C5. A requested column token that equals no header, both taken in
    lower case, resolves to index 0: at its position the result names the
    first header, and every result row holds the first cell of the row it
    comes from. No query makes the engines fail; they are total. *)
Theorem unresolved_column_falls_back_to_first
    (localeCompare : string -> string -> Z) (query : string) (t : CSVData)
    (inner token : string) (k : nat) :
  Str.includes (normalize query) "select" = true ->
  selectMatch (normalize query) = Some inner ->
  Str.trim inner <> "*" ->
  List.map Str.trim (Str.split "," inner) !! k = Some token ->
  Forall (fun h => Str.toLowerCase h <> Str.toLowerCase token) (headers t) ->
  (columns (Client.execute localeCompare query t) !! k = Some (headers t !! 0)
   /\ List.map (fun r : Row => r !! k)
        (resultRows (Client.execute localeCompare query t)) =
      List.map (fun src : Row => Some (cell src 0))
        (Client.survivors localeCompare query t))
  /\
  (columns (Server.executeCSVQuery query t) !! k = Some (headers t !! 0)
   /\ List.map (fun r : Row => r !! k)
        (resultRows (Server.executeCSVQuery query t)) =
      List.map (fun src : Row => Some (cell src 0))
        (Server.survivors query t)).
Proof.
  intros Hsel Hmatch Hstar Htok Hnone.
  apply headerIndex_none in Hnone.
  assert (Hidx : List.map (columnIndexOf (headers t))
                   (List.map Str.trim (Str.split "," inner)) !! k = Some 0).
  { rewrite lookup_map, Htok. cbn [option_map]. unfold columnIndexOf.
    rewrite Hnone. reflexivity. }
  assert (Hcols : selectColumns (normalize query) (headers t) =
            (List.map (fun i => headers t !! i)
               (List.map (columnIndexOf (headers t))
                  (List.map Str.trim (Str.split "," inner))),
             List.map (columnIndexOf (headers t))
               (List.map Str.trim (Str.split "," inner)))).
  { unfold selectColumns. rewrite Hmatch.
    apply String.eqb_neq in Hstar. rewrite Hstar. reflexivity. }
  split.
  - rewrite execute_select by exact Hsel. rewrite Hcols.
    cbn [columns resultRows]. split.
    + rewrite lookup_map, Hidx. reflexivity.
    + apply project_column, Hidx.
  - rewrite server_execute_select by exact Hsel. rewrite Hcols.
    cbn [columns resultRows]. split.
    + rewrite lookup_map, Hidx. reflexivity.
    + apply project_column, Hidx.
Qed.

Lemma unresolved_column_falls_back_to_first_witness :
  let t := mkCSVData ["Year"; "Value"] [["2024"; "17"]; ["2023"; "4"]] in
  let query := "SELECT value, nonexistent_col FROM t" in
  (Str.includes (normalize query) "select" = true
   /\ selectMatch (normalize query) = Some "value, nonexistent_col"
   /\ Str.trim "value, nonexistent_col" <> "*"
   /\ List.map Str.trim (Str.split "," "value, nonexistent_col") !! 1 =
       Some "nonexistent_col"
   /\ Forall (fun h => Str.toLowerCase h <> Str.toLowerCase "nonexistent_col")
        (headers t))
  /\ columns (Client.execute codeUnitCompare query t) !! 1 = Some (Some "Year")
  /\ List.map (fun r : Row => r !! 1)
       (resultRows (Client.execute codeUnitCompare query t)) =
     [Some "2024"; Some "2023"]
  /\ columns (Server.executeCSVQuery query t) !! 1 = Some (Some "Year")
  /\ List.map (fun r : Row => r !! 1)
       (resultRows (Server.executeCSVQuery query t)) =
     [Some "2024"; Some "2023"].
Proof.
  intros t query.
  assert (Hsel : Str.includes (normalize query) "select" = true) by reflexivity.
  assert (Hm : selectMatch (normalize query) = Some "value, nonexistent_col")
    by reflexivity.
  assert (Hstar : Str.trim "value, nonexistent_col" <> "*") by discriminate.
  assert (Htok : List.map Str.trim (Str.split "," "value, nonexistent_col") !! 1
                 = Some "nonexistent_col") by reflexivity.
  assert (Hno : Forall
            (fun h => Str.toLowerCase h <> Str.toLowerCase "nonexistent_col")
            (headers t)).
  { repeat constructor; discriminate. }
  split; [auto 6|].
  destruct (unresolved_column_falls_back_to_first codeUnitCompare query t
              _ _ _ Hsel Hm Hstar Htok Hno) as [[Hc Hr] [Hc' Hr']].
  rewrite Hc, Hr, Hc', Hr'. repeat split.
Defined.

(** ** The table after a call *)

Lemma fresh_other (h : Client.heap) (l : Client.loc) (a : list Row) :
  h !! l = Some a -> fresh (dom h) <> l.
Proof.
  intros Hl E. pose proof (is_fresh (dom h)) as Hf. rewrite E in Hf.
  apply Hf, elem_of_dom. eauto.
Qed.

Lemma fresh_dom_other (h : Client.heap) (l : Client.loc) :
  l ∈ dom h -> fresh (dom h) <> l.
Proof.
  intros Hl E. pose proof (is_fresh (dom h)) as Hf. rewrite E in Hf. auto.
Qed.

Lemma alloc_keeps (h : Client.heap) (l : Client.loc) (a b : list Row) :
  h !! l = Some a -> <[fresh (dom h) := b]> h !!! l = a.
Proof.
  intros Hl. rewrite lookup_total_insert_ne by (eapply fresh_other; eauto).
  rewrite lookup_total_alt, Hl. reflexivity.
Qed.

Section TableAfter.

Variable localeCompare : string -> string -> Z.

(** Where a WHERE clause is found, [filter] has made a new array and the
    table keeps its rows; so it does where no ORDER BY clause is found. *)
Lemma table_kept query t :
  is_Some (whereMatch (normalize query)) \/
  Client.orderMatch (normalize query) = None ->
  Client.tableAfter localeCompare query t = t.
Proof.
  intros Hcase. destruct t as [hs rs].
  open_call. f_equal.
  destruct (Str.includes (normalize query) "select");
    [|apply lookup_total_singleton_eq].
  destruct (selectColumns (normalize query) hs) as [sc ci].
  store_steps. by_clauses query hs;
    try (destruct Hcase as [[? Hc]|Hc]; discriminate Hc);
    repeat (rewrite lookup_total_insert_ne
              by (apply fresh_dom_other; rewrite ?dom_insert_L, ?dom_singleton_L;
                  set_solver));
    apply lookup_total_singleton_eq.
Qed.

(** Without a WHERE clause, [filteredRows] still names [data.rows] when
    [sort] runs: the table's own array is reordered. *)
Lemma table_sorted_in_place query t column direction columnIndex :
  Str.includes (normalize query) "select" = true ->
  whereMatch (normalize query) = None ->
  Client.orderMatch (normalize query) = Some (column, direction) ->
  headerIndex (headers t) column = Some columnIndex ->
  rows (Client.tableAfter localeCompare query t) =
  Client.sortBy (Client.compareRows localeCompare columnIndex direction) (rows t).
Proof.
  intros Hsel Hwhere Horder Hcol.
  open_call. rewrite Hsel.
  destruct (selectColumns (normalize query) (headers t)) as [sc ci].
  store_steps.
  rewrite Hwhere, Horder, Hcol.
  destruct (limitMatch (normalize query)) as [limit|]; cbn [fst snd];
    rewrite ?lookup_total_singleton_eq.
  - erewrite alloc_keeps; [reflexivity | apply lookup_insert_eq].
  - apply lookup_total_insert_eq.
Qed.

End TableAfter.

(** C1. The claim that no call changes the table fails on the client
    engine for a query with ORDER BY and no WHERE: on the table with
    header [a] and the rows [2] and [1], [SELECT * FROM t ORDER BY a]
    leaves the table holding [1] before [2]. *)
Theorem order_by_without_where_reorders_table
    (localeCompare : string -> string -> Z) :
  let t := mkCSVData ["a"] [["2"]; ["1"]] in
  Client.tableAfter localeCompare "SELECT * FROM t ORDER BY a" t =
    mkCSVData ["a"] [["1"]; ["2"]]
  /\ Client.tableAfter localeCompare "SELECT * FROM t ORDER BY a" t <> t
  /\ Client.tableAfter localeCompare
       "SELECT * FROM t WHERE a LIKE '%' ORDER BY a" t = t.
Proof.
  intros t.
  assert (E : Client.tableAfter localeCompare "SELECT * FROM t ORDER BY a" t =
              mkCSVData ["a"] [["1"]; ["2"]]).
  { vm_compute. reflexivity. }
  split; [exact E|]. split.
  - rewrite E. discriminate.
  - apply table_kept. left. exists "a like '%'". vm_compute. reflexivity.
Qed.

(** ** Loading *)

Lemma normalizeRow_length (n : nat) (row : Row) :
  length (normalizeRow n row) = n.
Proof.
  unfold normalizeRow, padRow.
  rewrite length_firstn, length_app, repeat_length. lia.
Qed.

Lemma normalizeRow_short (n : nat) (row : Row) :
  length row <= n -> normalizeRow n row = row ++ repeat "" (n - length row).
Proof.
  intros H. unfold normalizeRow, padRow. apply firstn_all2.
  rewrite length_app, repeat_length. lia.
Qed.

Lemma normalizeRow_long (n : nat) (row : Row) :
  n <= length row -> normalizeRow n row = firstn n row.
Proof.
  intros H. unfold normalizeRow, padRow.
  rewrite firstn_app. replace (n - length row) with 0 by lia.
  cbn [repeat]. rewrite firstn_nil, app_nil_r. reflexivity.
Qed.

(** Every row the loop of [parseCSV] stores is a normalised logical row. *)
Lemma parseCSV_rows_stored (P : Row -> Prop) lines width i acc :
  (forall j, j < length lines ->
     P (normalizeRow width (fst (Server.parseCSVRow lines j)))) ->
  Forall P acc ->
  Forall P (Server.parseCSV_rows lines width i acc).
Proof.
  intros HP. funelim (Server.parseCSV_rows lines width i acc); intros Hacc.
  - exact Hacc.
  - auto.
  - match goal with
    | IH : forall P : Row -> Prop, _ |- _ => apply IH; [exact HP|]
    end.
    destruct (0 <? length row); [|exact Hacc].
    apply Forall_app. split; [exact Hacc|].
    constructor; [|constructor].
    match goal with
    | E : Server.parseCSVRow lines i = _, L : i < length lines |- _ =>
        specialize (HP i L); rewrite E in HP
    end.
    exact HP.
Qed.

(** C2, as amended. The client loader rejects, with the error
    "No data found in CSV", exactly when PapaParse hands over no record,
    and resolves to a table otherwise. The server loader never fails: for
    every text, the empty one included, [parseCSV] returns a table; for
    the empty text that table has the single header [""] and no rows. *)
Theorem loaders_on_empty_input :
  Client.loadCSVData [] = Failed "No data found in CSV"
  /\ (forall row0 rest, exists t, Client.loadCSVData (row0 :: rest) = Loaded t)
  /\ (forall csvText, Server.load csvText = Loaded (Server.parseCSV csvText))
  /\ Server.parseCSV "" = mkCSVData [""] [].
Proof.
  repeat split.
  intros row0 rest. eexists. reflexivity.
Qed.

(** C2, the counterexample. The server loader, given the empty text, does
    not fail: it returns a table. *)
Lemma server_load_of_empty_text_is_a_table :
  Server.load "" = Loaded (mkCSVData [""] [])
  /\ ~ (exists message, Server.load "" = Failed message).
Proof.
  split; [reflexivity|]. intros [message H]. discriminate H.
Qed.

(** C7. Every row of a loaded table has as many cells as there are
    headers. The server loader stores, for a logical row, its parsed cells
    padded at the end with empty strings when they are fewer than the
    headers and cut to the header length when they are more; the client
    loader does the same to each record it keeps, and trims the cells. *)
Theorem loaded_rows_have_header_width :
  (forall csvText,
     let t := Server.parseCSV csvText in
     let lines := Str.split Server.newline csvText in
     wellFormed t
     /\ Forall (fun r =>
          exists j, j < length lines /\
            r = normalizeRow (length (headers t))
                  (fst (Server.parseCSVRow lines j)))
         (rows t))
  /\ (forall row0 rest,
       exists t, Client.loadCSVData (row0 :: rest) = Loaded t
       /\ wellFormed t
       /\ Forall (fun r =>
            exists src, In src rest /\
              r = List.map Str.trim (normalizeRow (length (headers t)) src))
           (rows t))
  /\ (forall n (row : Row),
       length (normalizeRow n row) = n
       /\ (length row <= n ->
           normalizeRow n row = row ++ repeat "" (n - length row))
       /\ (n <= length row -> normalizeRow n row = firstn n row)).
Proof.
  split; [|split].
  - intros csvText t lines. subst t lines. unfold Server.parseCSV, wellFormed.
    destruct (Str.split Server.newline csvText) as [|line0 more] eqn:E.
    + split; constructor.
    + cbn [headers rows]. split.
      * apply parseCSV_rows_stored; [|constructor].
        intros j _. apply normalizeRow_length.
      * apply parseCSV_rows_stored; [|constructor].
        intros j Hj. exists j. split; [exact Hj | reflexivity].
  - intros row0 rest. eexists. split; [reflexivity|].
    unfold wellFormed. cbn [headers rows]. split.
    + apply List.Forall_forall. intros r Hr.
      apply in_map_iff in Hr as [src [<- _]].
      rewrite !length_map. apply normalizeRow_length.
    + apply List.Forall_forall. intros r Hr.
      apply in_map_iff in Hr as [src [<- Hsrc]].
      exists src. split; [|reflexivity].
      apply filter_In in Hsrc. tauto.
  - intros n row. split; [apply normalizeRow_length|].
    split; [apply normalizeRow_short | apply normalizeRow_long].
Qed.

Lemma loaded_rows_have_header_width_witness :
  let csvText :=
    ("a,b" ++ String Server.newline "1" ++ String Server.newline "1,2,3")%string in
  Server.parseCSV csvText = mkCSVData ["a"; "b"] [["1"; ""]; ["1"; "2"]]
  /\ wellFormed (Server.parseCSV csvText)
  /\ Client.loadCSVData [["a"; "b"]; ["1"]; ["1"; "2"; "3"]] =
       Loaded (mkCSVData ["a"; "b"] [["1"; ""]; ["1"; "2"]])
  /\ (length ["1"] <= 2 /\ normalizeRow 2 ["1"] = ["1"] ++ repeat "" (2 - 1))
  /\ (2 <= length ["1"; "2"; "3"] /\
      normalizeRow 2 ["1"; "2"; "3"] = firstn 2 ["1"; "2"; "3"]).
Proof.
  intros csvText.
  destruct loaded_rows_have_header_width as [Hserver [_ Hnorm]].
  split; [reflexivity|].
  split; [exact (proj1 (Hserver csvText))|].
  split; [reflexivity|].
  split.
  - split; [simpl; lia|]. apply (Hnorm 2 ["1"]). simpl; lia.
  - split; [simpl; lia|]. apply (Hnorm 2 ["1"; "2"; "3"]). simpl; lia.
Defined.

(** ** WHERE *)

Lemma split_two_includes (sep : ascii) (s a b : string) (more : list string) :
  Str.split sep s = a :: b :: more ->
  Str.includes s (String sep "") = true.
Proof.
  revert a b more. induction s as [|c r IH]; intros a b more; simpl.
  - discriminate.
  - destruct (ascii_dec sep c) as [->|Hne].
    + destruct r; reflexivity.
    + assert (Ascii.eqb c sep = false) as ->
        by (apply Ascii.eqb_neq; congruence).
      destruct (Str.split sep r) as [|x [|y xs]] eqn:E; try discriminate.
      intros _. rewrite (IH _ _ _ eq_refl). apply orb_true_r.
Qed.

Lemma findIndex_lt {A} (p : A -> bool) (l : list A) (i : nat) :
  findIndex p l = Some i -> i < length l.
Proof.
  revert i. induction l as [|x l IH]; intros i; simpl; [discriminate|].
  destruct (p x).
  - intros [= <-]. lia.
  - destruct (findIndex p l) as [j|]; [|discriminate].
    intros [= <-]. specialize (IH j eq_refl). lia.
Qed.

Lemma lookup_cell (row : Row) (i : nat) :
  i < length row -> row !! i = Some (cell row i).
Proof.
  intros H. unfold cell. destruct (row !! i) eqn:E; [reflexivity|].
  apply lookup_ge_None in E. lia.
Qed.

(** C3, as amended. When the WHERE clause splits at its [=] into a first
    piece (the column token), a second piece (the value token: the text
    between the first and the second [=], or all the rest when there is
    no second [=]) and possibly more, and the trimmed column token
    resolves to a header index, both engines keep exactly the rows of a
    well-formed table whose cell at that index contains, in lower case,
    the trimmed value token without its quote characters; ORDER BY (client),
    LIMIT and the projection then apply to these rows. *)
Theorem where_equals_keeps_substring_matches
    (localeCompare : string -> string -> Z) (query : string) (t : CSVData)
    (clause columnToken valueToken : string) (more : list string)
    (columnIndex : nat) :
  Str.includes (normalize query) "select" = true ->
  whereMatch (normalize query) = Some clause ->
  Str.split "=" clause = columnToken :: valueToken :: more ->
  headerIndex (headers t) (Str.trim columnToken) = Some columnIndex ->
  wellFormed t ->
  let keeps := fun row : Row =>
    Str.includes (Str.toLowerCase (cell row columnIndex))
      (Str.toLowerCase (Str.removeAll Str.isQuote (Str.trim valueToken))) in
  let columnIndices := snd (selectColumns (normalize query) (headers t)) in
  (Client.filtered query t = List.filter keeps (rows t)
   /\ resultRows (Client.execute localeCompare query t) =
      project columnIndices
        (applyLimit (normalize query)
           (Client.ordered localeCompare query t (List.filter keeps (rows t)))))
  /\
  (Server.filtered query t = List.filter keeps (rows t)
   /\ resultRows (Server.executeCSVQuery query t) =
      project columnIndices
        (applyLimit (normalize query) (List.filter keeps (rows t)))).
Proof.
  intros Hsel Hwhere Hsplit Hcol Hwf keeps columnIndices.
  assert (Heq := split_two_includes _ _ _ _ _ Hsplit).
  assert (Hc : Client.filtered query t = List.filter keeps (rows t)).
  { unfold Client.filtered. rewrite Hwhere.
    apply filter_ext. intros row. unfold Client.whereKeeps.
    rewrite Heq, Hsplit. cbn [List.map]. rewrite Hcol. reflexivity. }
  assert (Hs : Server.filtered query t = List.filter keeps (rows t)).
  { unfold Server.filtered. rewrite Hwhere.
    apply filter_ext_in. intros row Hrow. unfold Server.whereKeeps.
    rewrite Heq, Hsplit. cbn [List.map]. rewrite Hcol.
    rewrite lookup_cell; [reflexivity|].
    unfold wellFormed in Hwf. rewrite List.Forall_forall in Hwf.
    rewrite (Hwf row Hrow). exact (findIndex_lt _ _ _ Hcol). }
  subst columnIndices. split; split; try assumption.
  - rewrite execute_select by exact Hsel.
    destruct (selectColumns (normalize query) (headers t)) as [sc ci].
    cbn [resultRows snd]. unfold Client.survivors. rewrite Hc. reflexivity.
  - rewrite server_execute_select by exact Hsel.
    destruct (selectColumns (normalize query) (headers t)) as [sc ci].
    cbn [resultRows snd]. unfold Server.survivors. rewrite Hs.
    reflexivity.
Qed.

Lemma where_equals_keeps_substring_matches_witness :
  let t := mkCSVData ["Industry_name_NZSIOC"; "Value"]
             [["Agriculture, Forestry and Fishing"; "17"]; ["Mining"; "4"]] in
  let query := "SELECT * FROM t WHERE Industry_name_NZSIOC = 'agriculture'" in
  (Str.includes (normalize query) "select" = true
   /\ whereMatch (normalize query) = Some "industry_name_nzsioc = 'agriculture'"
   /\ Str.split "=" "industry_name_nzsioc = 'agriculture'" =
       ["industry_name_nzsioc "; " 'agriculture'"]
   /\ headerIndex (headers t) (Str.trim "industry_name_nzsioc ") = Some 0
   /\ wellFormed t)
  /\ resultRows (Client.execute codeUnitCompare query t) =
       [["Agriculture, Forestry and Fishing"; "17"]]
  /\ resultRows (Server.executeCSVQuery query t) =
       [["Agriculture, Forestry and Fishing"; "17"]].
Proof.
  intros t query.
  assert (Hsel : Str.includes (normalize query) "select" = true)
    by (vm_compute; reflexivity).
  assert (Hwhere : whereMatch (normalize query) =
                   Some "industry_name_nzsioc = 'agriculture'")
    by (vm_compute; reflexivity).
  assert (Hsplit : Str.split "=" "industry_name_nzsioc = 'agriculture'" =
                   ["industry_name_nzsioc "; " 'agriculture'"])
    by (vm_compute; reflexivity).
  assert (Hcol : headerIndex (headers t) (Str.trim "industry_name_nzsioc ") =
                 Some 0) by (vm_compute; reflexivity).
  assert (Hwf : wellFormed t) by (repeat constructor).
  split; [auto 6|].
  destruct (where_equals_keeps_substring_matches codeUnitCompare query t
              _ _ _ _ _ Hsel Hwhere Hsplit Hcol Hwf) as [[_ Hc] [_ Hs]].
  rewrite Hc, Hs. split; vm_compute; reflexivity.
Defined.

(** C3, the counterexample. With a second [=] in the clause the engines
    take the text between the two as value, not all the text after the
    first: for [a = b=c] they look for [b] and keep both rows, where the
    rule as worded looks for [b=c] and keeps one. *)
Lemma where_value_stops_at_second_equals :
  let t := mkCSVData ["a"] [["b"]; ["b=c"]] in
  let query := "SELECT * FROM t WHERE a = b=c" in
  whereMatch (normalize query) = Some "a = b=c"
  /\ List.filter (SpecWords.equalsKeeps (headers t) "a = b=c") (rows t) =
       [["b=c"]]
  /\ resultRows (Client.execute codeUnitCompare query t) = [["b"]; ["b=c"]]
  /\ resultRows (Server.executeCSVQuery query t) = [["b"]; ["b=c"]]
  /\ Client.filtered query t <>
       List.filter (SpecWords.equalsKeeps (headers t) "a = b=c") (rows t)
  /\ Server.filtered query t <>
       List.filter (SpecWords.equalsKeeps (headers t) "a = b=c") (rows t).
Proof.
  intros t query. repeat split; try (vm_compute; reflexivity);
    vm_compute; discriminate.
Qed.

(** The LIKE branch of the client engine: for a clause without [=] that
    contains [like] and matches the shape of a column, [like] and a quoted
    pattern, with a column that resolves, exactly the rows whose cell
    contains the pattern without its [%] characters are kept. *)
Lemma client_like_keeps_substring_matches
    (query : string) (t : CSVData) (clause column pattern : string)
    (m : captures) (columnIndex : nat) :
  whereMatch (normalize query) = Some clause ->
  Str.includes clause "=" = false ->
  Str.includes clause "like" = true ->
  exec re_like clause = Some m ->
  group 1 m = Some column ->
  group 2 m = Some pattern ->
  headerIndex (headers t) column = Some columnIndex ->
  Client.filtered query t =
  List.filter (fun row : Row =>
       Str.includes (Str.toLowerCase (cell row columnIndex))
         (Str.toLowerCase (Str.removeAll (Ascii.eqb "%") pattern)))
    (rows t).
Proof.
  intros Hwhere Hnoeq Hlike Hm Hg1 Hg2 Hcol.
  unfold Client.filtered. rewrite Hwhere.
  apply filter_ext. intros row. unfold Client.whereKeeps.
  rewrite Hnoeq, Hlike, Hm, Hg1, Hg2.
  cbv beta zeta iota delta [default from_option id].
  rewrite Hcol. reflexivity.
Qed.

(** The server engine keeps every row when the clause has no [=],
    whatever else it holds. *)
Lemma server_keeps_all_rows_without_equals
    (query : string) (t : CSVData) (clause : string) :
  whereMatch (normalize query) = Some clause ->
  Str.includes clause "=" = false ->
  Server.filtered query t = rows t.
Proof.
  intros Hwhere Hnoeq. unfold Server.filtered. rewrite Hwhere.
  induction (rows t) as [|row arr IH]; [reflexivity|].
  cbn [List.filter]. unfold Server.whereKeeps at 1. rewrite Hnoeq, IH.
  reflexivity.
Qed.

(** C8. The server engine has no LIKE branch: on the table with header
    [name] and the rows [abc] and [xyz], the query with
    [WHERE name LIKE '%x%'] returns both rows from the server engine,
    where the client engine returns the row [xyz] only. *)
Theorem server_ignores_like (localeCompare : string -> string -> Z) :
  let t := mkCSVData ["name"] [["abc"]; ["xyz"]] in
  let query := "SELECT * FROM t WHERE name LIKE '%x%'" in
  whereMatch (normalize query) = Some "name like '%x%'"
  /\ Str.includes "name like '%x%'" "=" = false
  /\ resultRows (Server.executeCSVQuery query t) = [["abc"]; ["xyz"]]
  /\ resultRows (Client.execute localeCompare query t) = [["xyz"]].
Proof.
  intros t query. repeat split; vm_compute; reflexivity.
Qed.

(** Two doubles compare as their mantissas do once both are written
    with a common exponent [E], no larger than either. *)
Lemma fin_compare_at (m1 e1 m2 e2 E : Z) :
  (E <= e1)%Z -> (E <= e2)%Z ->
  Num.compare (Num.Fin m1 e1) (Num.Fin m2 e2) =
  (m1 * 2 ^ (e1 - E) ?= m2 * 2 ^ (e2 - E))%Z.
Proof.
  intros H1 H2. cbn [Num.compare].
  set (e := Z.min e1 e2).
  assert (He : (E <= e)%Z) by (unfold e; lia).
  assert (He1 : (e <= e1)%Z) by (unfold e; lia).
  assert (He2 : (e <= e2)%Z) by (unfold e; lia).
  replace (e1 - E)%Z with ((e1 - e) + (e - E))%Z by lia.
  replace (e2 - E)%Z with ((e2 - e) + (e - E))%Z by lia.
  rewrite !Z.pow_add_r by lia. rewrite !Z.mul_assoc.
  assert (Hp : (0 < 2 ^ (e - E))%Z) by (apply Z.pow_pos_nonneg; lia).
  generalize dependent (2 ^ (e - E))%Z. intros p Hp.
  generalize (m1 * 2 ^ (e1 - e))%Z (m2 * 2 ^ (e2 - e))%Z. intros a b.
  destruct (Z.compare_spec a b), (Z.compare_spec (a * p) (b * p));
    try reflexivity; nia.
Qed.

Lemma num_le_trans (x y z : Num.num) :
  Num.compare x y <> Gt -> Num.compare y z <> Gt -> Num.compare x z <> Gt.
Proof.
  destruct x as [|m1 e1|], y as [|m2 e2|], z as [|m3 e3|];
    cbn [Num.compare]; try congruence; try discriminate.
  set (E := Z.min e1 (Z.min e2 e3)).
  fold (Num.compare (Num.Fin m1 e1) (Num.Fin m2 e2)).
  fold (Num.compare (Num.Fin m2 e2) (Num.Fin m3 e3)).
  fold (Num.compare (Num.Fin m1 e1) (Num.Fin m3 e3)).
  rewrite (fin_compare_at m1 e1 m2 e2 E), (fin_compare_at m2 e2 m3 e3 E),
    (fin_compare_at m1 e1 m3 e3 E) by (unfold E; lia).
  rewrite !Z.compare_gt_iff. lia.
Qed.

(** ** ORDER BY *)

Section OrderBy.

Variable localeCompare : string -> string -> Z.

(** A collation answers [b] against [a] with the opposite sign of [a]
    against [b]. *)
Hypothesis localeCompare_antisym :
  forall a b, Z.sgn (localeCompare b a) = (- Z.sgn (localeCompare a b))%Z.

Lemma localeCompare_flip a b :
  (localeCompare b a <= 0)%Z <-> (0 <= localeCompare a b)%Z.
Proof.
  rewrite <- Z.sgn_nonpos, <- (Z.sgn_nonneg (localeCompare a b)).
  rewrite localeCompare_antisym. lia.
Qed.

Lemma compareRows_inOrder columnIndex direction (u v : Row) :
  (Client.compareRows localeCompare columnIndex direction u v <= 0)%Z <->
  Client.inOrder localeCompare (Client.isDesc direction)
    (cell u columnIndex) (cell v columnIndex) = true.
Proof.
  unfold Client.compareRows, Client.inOrder, Client.cellLe, Num.subSign.
  destruct (Client.isDesc direction);
    destruct (Num.parseFloat (cell u columnIndex)) as [x|];
    destruct (Num.parseFloat (cell v columnIndex)) as [y|];
    cbv beta iota;
    rewrite ?Z.leb_le, ?localeCompare_flip;
    try (destruct (Num.compare _ _); split; (lia || discriminate || reflexivity));
    try lia.
Qed.

Lemma compareRows_total columnIndex direction (u v : Row) :
  (0 < Client.compareRows localeCompare columnIndex direction u v)%Z ->
  (Client.compareRows localeCompare columnIndex direction v u <= 0)%Z.
Proof.
  unfold Client.compareRows, Num.subSign.
  destruct (Client.isDesc direction);
    destruct (Num.parseFloat (cell u columnIndex)) as [x|];
    destruct (Num.parseFloat (cell v columnIndex)) as [y|];
    try (rewrite (num_compare_antisym x y) || rewrite (num_compare_antisym y x);
         destruct (Num.compare _ _); cbn [CompOpp]; lia);
    intros H;
    pose proof (localeCompare_flip (cell u columnIndex) (cell v columnIndex));
    pose proof (localeCompare_flip (cell v columnIndex) (cell u columnIndex));
    lia.
Qed.

Lemma transitiveOn_spec (keys : list string) :
  Client.transitiveOn localeCompare keys = true ->
  forall a b c, In a keys -> In b keys -> In c keys ->
    Client.cellLe localeCompare a b = true ->
    Client.cellLe localeCompare b c = true ->
    Client.cellLe localeCompare a c = true.
Proof.
  unfold Client.transitiveOn. intros H a b c Ha Hb Hc Hab Hbc.
  rewrite forallb_forall in H. specialize (H a Ha).
  rewrite forallb_forall in H. specialize (H b Hb).
  rewrite forallb_forall in H. specialize (H c Hc).
  rewrite Hab, Hbc in H. exact H.
Qed.

(** On a column whose cells all parse as numbers the order is the
    numeric one, which is transitive: the comparator is consistent. *)
Lemma numeric_column_transitive (keys : list string) :
  Forall (fun k => Num.parseFloat k <> None) keys ->
  Client.transitiveOn localeCompare keys = true.
Proof.
  intros Hnum. rewrite List.Forall_forall in Hnum.
  unfold Client.transitiveOn.
  apply forallb_forall. intros a Ha.
  apply forallb_forall. intros b Hb.
  apply forallb_forall. intros c Hc.
  unfold Client.cellLe.
  destruct (Num.parseFloat a) as [x|] eqn:Ea; [|elim (Hnum a Ha Ea)].
  destruct (Num.parseFloat b) as [y|] eqn:Eb; [|elim (Hnum b Hb Eb)].
  destruct (Num.parseFloat c) as [z|] eqn:Ec; [|elim (Hnum c Hc Ec)].
  pose proof (num_le_trans x y z) as T.
  destruct (Num.compare x y), (Num.compare y z), (Num.compare x z);
    try reflexivity; exfalso; apply T; congruence.
Qed.

(** C6, as amended. For a query with an ORDER BY clause whose column
    resolves to a header index, on a table where the mixed comparison is
    consistent (transitive) on the cells of that column, the client engine
    sorts the rows the WHERE block left: the rows that reach LIMIT and the
    projection are a permutation of them in which a row comes before
    another only if its cell may, the cells being compared numerically
    when both parse as numbers and by [localeCompare] otherwise, in
    descending order when the captured direction is [desc] and in
    ascending order otherwise, also when there is no direction. *)
Theorem order_by_sorts_rows
    (query : string) (t : CSVData) (column : string)
    (direction : option string) (columnIndex : nat) :
  Str.includes (normalize query) "select" = true ->
  Client.orderMatch (normalize query) = Some (column, direction) ->
  headerIndex (headers t) column = Some columnIndex ->
  Client.transitiveOn localeCompare
    (List.map (fun r : Row => cell r columnIndex) (rows t)) = true ->
  exists sorted : list Row,
    Permutation sorted (Client.filtered query t)
    /\ StronglySorted
         (fun u v : Row =>
            Client.inOrder localeCompare (Client.isDesc direction)
              (cell u columnIndex) (cell v columnIndex) = true)
         sorted
    /\ resultRows (Client.execute localeCompare query t) =
       project (snd (selectColumns (normalize query) (headers t)))
         (applyLimit (normalize query) sorted).
Proof.
  intros Hsel Horder Hcol Htr.
  exists (Client.sortBy (Client.compareRows localeCompare columnIndex direction)
            (Client.filtered query t)).
  split; [apply sortBy_perm|]. split.
  - eapply StronglySorted_weaken;
      [intros u v _ _ H; apply compareRows_inOrder; exact H|].
    apply sortBy_sorted.
    + intros u v _ _. apply compareRows_total.
    + pose proof (transitiveOn_spec _ Htr) as T.
      assert (K : forall r : Row, In r (Client.filtered query t) ->
                In (cell r columnIndex)
                   (List.map (fun r : Row => cell r columnIndex) (rows t))).
      { intros r Hr. apply in_map_iff. exists r.
        split; [reflexivity | exact (filtered_incl query t r Hr)]. }
      intros u v w Hu Hv Hw. rewrite !compareRows_inOrder.
      unfold Client.inOrder. destruct (Client.isDesc direction);
        intros H1 H2; apply (T _ (cell v columnIndex)); auto.
  - rewrite execute_select by exact Hsel.
    destruct (selectColumns (normalize query) (headers t)) as [sc ci].
    cbn [resultRows snd]. unfold Client.survivors, Client.ordered.
    rewrite Horder, Hcol. reflexivity.
Qed.

End OrderBy.

Lemma codeUnitCompare_antisym (a b : string) :
  Z.sgn (codeUnitCompare b a) = (- Z.sgn (codeUnitCompare a b))%Z.
Proof.
  unfold codeUnitCompare. rewrite (String.compare_antisym a b).
  destruct (String.compare b a); reflexivity.
Qed.

Lemma order_by_sorts_rows_witness :
  let t := mkCSVData ["Name"; "Val"] [["b"; "10"]; ["a"; "2"]; ["c"; "33"]] in
  let query := "SELECT name FROM t ORDER BY val DESC LIMIT 2" in
  (Str.includes (normalize query) "select" = true
   /\ Client.orderMatch (normalize query) = Some ("val", Some "desc")
   /\ headerIndex (headers t) "val" = Some 1
   /\ Client.transitiveOn codeUnitCompare ["10"; "2"; "33"] = true)
  /\ (exists sorted : list Row,
        Permutation sorted (Client.filtered query t)
        /\ StronglySorted
             (fun u v : Row =>
                Client.inOrder codeUnitCompare true (cell u 1) (cell v 1) = true)
             sorted
        /\ resultRows (Client.execute codeUnitCompare query t) =
           project (snd (selectColumns (normalize query) (headers t)))
             (applyLimit (normalize query) sorted))
  /\ resultRows (Client.execute codeUnitCompare query t) = [["c"]; ["b"]].
Proof.
  intros t query.
  assert (Hsel : Str.includes (normalize query) "select" = true)
    by (vm_compute; reflexivity).
  assert (Horder : Client.orderMatch (normalize query) =
                   Some ("val", Some "desc")) by (vm_compute; reflexivity).
  assert (Hcol : headerIndex (headers t) "val" = Some 1)
    by (vm_compute; reflexivity).
  assert (Htr : Client.transitiveOn codeUnitCompare
                  (List.map (fun r : Row => cell r 1) (rows t)) = true)
    by (vm_compute; reflexivity).
  split; [repeat split; assumption|].
  split.
  - exact (order_by_sorts_rows codeUnitCompare codeUnitCompare_antisym
             query t "val" (Some "desc") 1 Hsel Horder Hcol Htr).
  - vm_compute. reflexivity.
Defined.

(** C6, the counterexample. On a column that mixes numbers and text the
    comparison has cycles and the rows cannot come out sorted: [3] is
    below [+5] as a number, [+5] is below [+a] as text, and [+a] is below
    [3] as text. The engine returns [3], [+5], [+a], where [3] stands
    before [+a] against the comparison of that pair. *)
Lemma mixed_column_is_not_sorted :
  let t := mkCSVData ["v"] [["3"]; ["+5"]; ["+a"]] in
  let query := "SELECT * FROM t ORDER BY v" in
  Client.orderMatch (normalize query) = Some ("v", None)
  /\ headerIndex (headers t) "v" = Some 0
  /\ resultRows (Client.execute codeUnitCompare query t) =
       [["3"]; ["+5"]; ["+a"]]
  /\ Client.inOrder codeUnitCompare false "3" "+a" = false
  /\ ~ StronglySorted
         (fun u v : Row =>
            Client.inOrder codeUnitCompare false (cell u 0) (cell v 0) = true)
         (resultRows (Client.execute codeUnitCompare query t)).
Proof.
  intros t query.
  assert (Hrows : resultRows (Client.execute codeUnitCompare query t) =
                  [["3"]; ["+5"]; ["+a"]]) by (vm_compute; reflexivity).
  split; [vm_compute; reflexivity|].
  split; [vm_compute; reflexivity|].
  split; [exact Hrows|].
  split; [vm_compute; reflexivity|].
  rewrite Hrows. intros Hs.
  apply StronglySorted_inv in Hs as [_ Hs].
  apply Forall_inv_tail, Forall_inv in Hs.
  vm_compute in Hs. discriminate Hs.
Qed.

(** The all-numeric column of the specification: [10], [2], [33] come out
    as [2], [10], [33] in ascending order, and a column of words in the
    order of the collation. *)
Example numeric_column_sorts_numerically :
  resultRows (Client.execute codeUnitCompare "SELECT * FROM t ORDER BY v"
                (mkCSVData ["v"] [["10"]; ["2"]; ["33"]])) =
    [["2"]; ["10"]; ["33"]]
  /\ resultRows (Client.execute codeUnitCompare "SELECT * FROM t ORDER BY v"
                   (mkCSVData ["v"] [["pear"]; ["apple"]; ["fig"]])) =
    [["apple"]; ["fig"]; ["pear"]].
Proof. split; vm_compute; reflexivity. Qed.

(** ** Examples of the specification's testable properties *)

Section SpecExamples.

Let dq : string := String Server.dquote "".
Let nl : string := String Server.newline "".

(** Quote escaping: a quoted field with a doubled quote inside parses to
    one cell holding a single quote character. *)
Example quote_escaping :
  Server.parseCSVLine (dq ++ "a" ++ dq ++ dq ++ "b" ++ dq ++ ", c")%string =
  [("a" ++ dq ++ "b")%string; "c"].
Proof. reflexivity. Qed.

(** Multi-line field: a quote opened on one line and closed two lines
    later gives one row, with the line feeds kept in the cell. *)
Example multi_line_field :
  Server.parseCSV
    ("h1,h2" ++ nl ++ dq ++ "x" ++ nl ++ "y" ++ nl ++ "z" ++ dq ++ ",2"
       ++ nl ++ "3,4")%string =
  mkCSVData ["h1"; "h2"]
    [[("x" ++ nl ++ "y" ++ nl ++ "z")%string; "2"]; ["3"; "4"]].
Proof. vm_compute. reflexivity. Qed.

(** Limit boundary: [LIMIT 0] returns no row, a limit above the row count
    returns them all. *)
Example limit_boundary :
  resultRows (Server.executeCSVQuery "SELECT * FROM t LIMIT 0"
                (mkCSVData ["a"] [["1"]; ["2"]])) = []
  /\ resultRows (Server.executeCSVQuery "SELECT * FROM t LIMIT 5"
                   (mkCSVData ["a"] [["1"]; ["2"]])) = [["1"]; ["2"]]
  /\ resultRows (Client.execute codeUnitCompare "SELECT * FROM t LIMIT 0"
                   (mkCSVData ["a"] [["1"]; ["2"]])) = []
  /\ resultRows (Client.execute codeUnitCompare "SELECT * FROM t LIMIT 5"
                   (mkCSVData ["a"] [["1"]; ["2"]])) = [["1"]; ["2"]].
Proof. repeat split; vm_compute; reflexivity. Qed.

End SpecExamples.

(** * Further properties of the loaders, the engines and the generator *)

(** ** [parseCSVLine] *)

Lemma append_empty_r (s : string) : (s ++ "")%string = s.
Proof.
  induction s as [|c s IH]; [reflexivity|].
  change (String c (s ++ "")%string = String c s). rewrite IH. reflexivity.
Qed.

Lemma push_append (cur : string) (c : ascii) (x : string) :
  (Server.push cur c ++ x)%string = (cur ++ String c x)%string.
Proof. unfold Server.push. rewrite append_assoc. reflexivity. Qed.

Lemma split_cons (sep : ascii) (s : string) :
  exists x xs, Str.split sep s = x :: xs.
Proof.
  destruct s as [|c r]; cbn [Str.split]; [eauto|].
  destruct (Ascii.eqb c sep); [eauto|].
  destruct (Str.split sep r); eauto.
Qed.

Lemma split_length (sep : ascii) (s : string) :
  length (Str.split sep s) = S (Str.count sep s).
Proof.
  induction s as [|c r IH]; cbn [Str.split Str.count]; [reflexivity|].
  destruct (Ascii.eqb c sep).
  - cbn [length]. rewrite IH. reflexivity.
  - destruct (Str.split sep r) as [|x xs]; [discriminate IH|].
    cbn [length] in *. lia.
Qed.

(** The loop on a stretch without quotes, started outside quotes: the
    pending text goes in front of the first piece. *)
Lemma parseCSVLine_from_unquoted (line cur : string) (res : list string) :
  Str.count Server.dquote line = 0 ->
  Server.parseCSVLine_from line cur false res =
  res ++ List.map Str.trim
           match Str.split Server.comma line with
           | x :: xs => (cur ++ x)%string :: xs
           | [] => [cur]
           end.
Proof.
  revert cur res. induction line as [|c r IH]; intros cur res Hq.
  - cbn [Server.parseCSVLine_from Str.split List.map].
    rewrite append_empty_r. reflexivity.
  - cbn [Str.count] in Hq. cbn [Server.parseCSVLine_from Str.split].
    destruct (Ascii.eqb c Server.dquote) eqn:Edq; [discriminate Hq|].
    cbn [Nat.add] in Hq. cbn [negb andb]. rewrite andb_true_r.
    destruct (split_cons Server.comma r) as (x & xs & Hx).
    destruct (Ascii.eqb c Server.comma).
    + rewrite (IH _ _ Hq), Hx. cbn [List.map].
      rewrite append_empty_r, <- app_assoc. reflexivity.
    + rewrite (IH _ _ Hq), Hx. cbn [List.map].
      rewrite push_append. reflexivity.
Qed.

Lemma parseCSVLine_without_quotes_aux (line : string) :
  Str.count Server.dquote line = 0 ->
  Server.parseCSVLine line = List.map Str.trim (Str.split Server.comma line).
Proof.
  intros Hq. unfold Server.parseCSVLine.
  rewrite (parseCSVLine_from_unquoted _ _ _ Hq).
  destruct (split_cons Server.comma line) as (x & xs & ->). reflexivity.
Qed.

(** X1. A line without double quotes is cut at its commas and every piece
    is trimmed. *)
Theorem parseCSVLine_without_quotes (line : string) :
  Str.count Server.dquote line = 0 ->
  Server.parseCSVLine line = List.map Str.trim (Str.split Server.comma line).
Proof.
  intros Hq. unfold Server.parseCSVLine.
  rewrite (parseCSVLine_from_unquoted _ _ _ Hq).
  destruct (split_cons Server.comma line) as (x & xs & ->). reflexivity.
Qed.

Lemma parseCSVLine_without_quotes_witness :
  Str.count Server.dquote " a , b,,c " = 0
  /\ Server.parseCSVLine " a , b,,c " = ["a"; "b"; ""; "c"].
Proof.
  split; [reflexivity|].
  rewrite (parseCSVLine_without_quotes " a , b,,c " eq_refl). reflexivity.
Defined.

(** Inside quotes the loop reads an escaped field up to its closing
    quote, whatever the field holds. *)
Lemma parseCSVLine_from_inside_quotes (f rest cur : string) (res : list string) :
  (forall t, rest <> String Server.dquote t) ->
  Server.parseCSVLine_from
    (Csv.escapeQuotes f ++ String Server.dquote rest) cur true res =
  Server.parseCSVLine_from rest (cur ++ f) false res.
Proof.
  intros Hrest. revert cur. induction f as [|c r IH]; intros cur.
  - change (Csv.escapeQuotes "" ++ String Server.dquote rest)%string
      with (String Server.dquote rest).
    rewrite append_empty_r. cbn [Server.parseCSVLine_from].
    change (Ascii.eqb Server.dquote Server.dquote) with true. cbv iota.
    destruct rest as [|next rest']; [reflexivity|].
    destruct (Ascii.eqb_spec next Server.dquote) as [->|]; [|reflexivity].
    elim (Hrest rest'). reflexivity.
  - cbn [Csv.escapeQuotes].
    destruct (Ascii.eqb_spec c Server.dquote) as [->|Hc].
    + change (String Server.dquote (String Server.dquote (Csv.escapeQuotes r))
                ++ String Server.dquote rest)%string
        with (String Server.dquote
                (String Server.dquote
                   (Csv.escapeQuotes r ++ String Server.dquote rest)%string)).
      cbn [Server.parseCSVLine_from].
      change (Ascii.eqb Server.dquote Server.dquote) with true. cbv iota.
      rewrite IH, push_append. reflexivity.
    + change (String c (Csv.escapeQuotes r) ++ String Server.dquote rest)%string
        with (String c (Csv.escapeQuotes r ++ String Server.dquote rest)%string).
      cbn [Server.parseCSVLine_from].
      apply Ascii.eqb_neq in Hc. rewrite Hc. cbn [negb andb].
      rewrite andb_false_r, IH, push_append. reflexivity.
Qed.

Lemma parseCSVLine_from_quoted_field (f rest cur : string) (res : list string) :
  (forall t, rest <> String Server.dquote t) ->
  Server.parseCSVLine_from (Csv.quoteField f ++ rest) cur false res =
  Server.parseCSVLine_from rest (cur ++ f) false res.
Proof.
  intros Hrest. unfold Csv.quoteField.
  change (String Server.dquote
            (Csv.escapeQuotes f ++ String Server.dquote "") ++ rest)%string
    with (String Server.dquote
            ((Csv.escapeQuotes f ++ String Server.dquote "") ++ rest)%string).
  rewrite append_assoc.
  change (String Server.dquote "" ++ rest)%string
    with (String Server.dquote rest).
  cbn [Server.parseCSVLine_from].
  change (Ascii.eqb Server.dquote Server.dquote) with true. cbv iota.
  assert (E : Server.parseCSVLine_from
                (Csv.escapeQuotes f ++ String Server.dquote rest) cur
                (negb false) res =
              Server.parseCSVLine_from rest (cur ++ f) false res)
    by (apply parseCSVLine_from_inside_quotes; exact Hrest).
  destruct (Csv.escapeQuotes f ++ String Server.dquote rest)%string; exact E.
Qed.

Lemma parseCSVLine_from_quoted_fields (fs : list string) (res : list string) :
  fs <> [] ->
  Server.parseCSVLine_from
    (Csv.join (String Server.comma "") (List.map Csv.quoteField fs))
    "" false res =
  res ++ List.map Str.trim fs.
Proof.
  revert res. induction fs as [|f fs IH]; intros res Hne; [congruence|].
  destruct fs as [|f2 fs].
  - cbn [List.map Csv.join].
    rewrite <- (append_empty_r (Csv.quoteField f)).
    rewrite parseCSVLine_from_quoted_field by discriminate.
    reflexivity.
  - change (Csv.join (String Server.comma "")
              (List.map Csv.quoteField (f :: f2 :: fs)))
      with (Csv.quoteField f ++
            String Server.comma
              (Csv.join (String Server.comma "")
                 (List.map Csv.quoteField (f2 :: fs))))%string.
    rewrite parseCSVLine_from_quoted_field by discriminate.
    cbn [Server.parseCSVLine_from].
    change (Ascii.eqb Server.comma Server.dquote) with false.
    change (Ascii.eqb Server.comma Server.comma) with true.
    cbn [negb andb]. cbv iota.
    rewrite IH by discriminate.
    rewrite <- app_assoc. reflexivity.
Qed.

(** X2. Fields written between quotes, their own quotes doubled, and
    joined by commas are read back as those fields, trimmed, whatever
    characters they hold: commas, quotes and line feeds included. *)
Theorem parseCSVLine_reads_quoted_fields (fs : list string) :
  fs <> [] ->
  Server.parseCSVLine
    (Csv.join (String Server.comma "") (List.map Csv.quoteField fs)) =
  List.map Str.trim fs.
Proof.
  intros Hne. unfold Server.parseCSVLine.
  rewrite parseCSVLine_from_quoted_fields by exact Hne. reflexivity.
Qed.

Lemma parseCSVLine_reads_quoted_fields_witness :
  let said := ("he said " ++ String Server.dquote "hi"
                 ++ String Server.dquote "")%string in
  ["a, b"; said; " padded "] <> []
  /\ Server.parseCSVLine
       (Csv.join (String Server.comma "")
          (List.map Csv.quoteField ["a, b"; said; " padded "])) =
     ["a, b"; said; "padded"].
Proof.
  intros said. split; [discriminate|].
  rewrite (parseCSVLine_reads_quoted_fields ["a, b"; said; " padded "])
    by discriminate.
  reflexivity.
Defined.

(** ** What every loaded table satisfies *)

Lemma trimStart_clean (s : string) : startsClean (Str.trimStart s).
Proof.
  induction s as [|c r IH]; cbn [Str.trimStart]; [exact I|].
  destruct (Str.isSpace c) eqn:E; [exact IH | exact E].
Qed.

Lemma trimStart_of_clean (s : string) : startsClean s -> Str.trimStart s = s.
Proof.
  destruct s as [|c r]; [reflexivity|]. cbn [startsClean Str.trimStart].
  intros ->. reflexivity.
Qed.

Lemma trimEnd_clean (s : string) : startsClean s -> startsClean (Str.trimEnd s).
Proof.
  destruct s as [|c r]; [auto|]. cbn [startsClean Str.trimEnd].
  intros E. rewrite E. exact E.
Qed.

Lemma trimEnd_idem (s : string) : Str.trimEnd (Str.trimEnd s) = Str.trimEnd s.
Proof.
  induction s as [|c r IH]; [reflexivity|]. cbn [Str.trimEnd].
  destruct (Str.isSpace c && Str.isEmpty (Str.trimEnd r)) eqn:E; [reflexivity|].
  cbn [Str.trimEnd]. rewrite IH, E. reflexivity.
Qed.

Lemma trim_idem (s : string) : Str.trim (Str.trim s) = Str.trim s.
Proof.
  unfold Str.trim.
  rewrite (trimStart_of_clean (Str.trimEnd (Str.trimStart s)))
    by apply trimEnd_clean, trimStart_clean.
  apply trimEnd_idem.
Qed.

(** Induction on a string where the step may also use the tail of the
    tail, as the loop of [parseCSVLine] does on an escaped quote. *)
Lemma string_ind_two (P : string -> Prop) :
  P "" ->
  (forall c s, P s -> (forall d s', s = String d s' -> P s') -> P (String c s)) ->
  forall s, P s.
Proof.
  intros H0 Hstep s.
  assert (H : P s /\ (forall d s', s = String d s' -> P s')).
  { induction s as [|c s [IH1 IH2]].
    - split; [exact H0 | discriminate].
    - split; [apply Hstep; assumption|]. intros d s' [= _ <-]. exact IH1. }
  exact (proj1 H).
Qed.

(** What the loop of [parseCSVLine] adds to [result]: at least one field,
    and trimmed fields only. *)
Lemma parseCSVLine_from_fields (line : string) :
  forall cur inQuotes res,
  exists fields,
    fields <> []
    /\ Forall (fun f => Str.trim f = f) fields
    /\ Server.parseCSVLine_from line cur inQuotes res = res ++ fields.
Proof.
  induction line as [|c r IH IH2] using string_ind_two; intros cur q res.
  - exists [Str.trim cur]. split; [discriminate|]. split; [|reflexivity].
    constructor; [apply trim_idem | constructor].
  - cbn [Server.parseCSVLine_from].
    destruct (Ascii.eqb c Server.dquote).
    + destruct q; [destruct r as [|next r']|]; try apply IH.
      destruct (Ascii.eqb next Server.dquote); [|apply IH].
      apply (IH2 next r' eq_refl).
    + destruct (Ascii.eqb c Server.comma && negb q); [|apply IH].
      destruct (IH "" q (res ++ [Str.trim cur])) as (fields & Hne & Htr & ->).
      exists (Str.trim cur :: fields). split; [discriminate|].
      split; [constructor; [apply trim_idem | exact Htr]|].
      rewrite <- app_assoc. reflexivity.
Qed.

Lemma parseCSVLine_fields (line : string) :
  Server.parseCSVLine line <> []
  /\ Forall (fun f => Str.trim f = f) (Server.parseCSVLine line).
Proof.
  unfold Server.parseCSVLine.
  destruct (parseCSVLine_from_fields line "" false []) as (fields & Hne & Htr & ->).
  split; assumption.
Qed.

Lemma parseCSV_rows_count lines width i acc :
  length (Server.parseCSV_rows lines width i acc) <=
  length acc + (length lines - i).
Proof.
  funelim (Server.parseCSV_rows lines width i acc).
  - lia.
  - match goal with IH : length _ <= _ |- _ => lia end.
  - match goal with
    | IH : length _ <= _, E : Server.parseCSVRow lines i = _ |- _ =>
        pose proof (Server.parseCSVRow_next lines i) as Hn; rewrite E in Hn;
        cbn [snd] in Hn;
        destruct (0 <? length row); rewrite ?length_app in IH; cbn [length] in IH;
        lia
    end.
Qed.

(** X3. Every table the server loader returns has at least one header,
    and no more rows than the text has line feeds. *)
Theorem parsed_table_size (csvText : string) :
  headers (Server.parseCSV csvText) <> []
  /\ length (rows (Server.parseCSV csvText)) <=
     Str.count Server.newline csvText.
Proof.
  unfold Server.parseCSV.
  pose proof (split_length Server.newline csvText) as Hlen.
  destruct (Str.split Server.newline csvText) as [|line0 more] eqn:E;
    [discriminate Hlen|].
  cbn [headers rows]. split; [apply parseCSVLine_fields|].
  pose proof (parseCSV_rows_count (line0 :: more)
                (length (Server.parseCSVLine line0)) 1 []) as H.
  cbn [length] in H, Hlen. lia.
Qed.

Lemma normalizeRow_trimmed (n : nat) (row : Row) :
  Forall (fun f => Str.trim f = f) row ->
  Forall (fun f => Str.trim f = f) (normalizeRow n row).
Proof.
  intros H. unfold normalizeRow, padRow. apply Forall_take.
  apply Forall_app. split; [exact H|].
  apply List.Forall_forall. intros f Hf. apply repeat_spec in Hf. subst f.
  reflexivity.
Qed.

Lemma parseCSVRow_trimmed (lines : list string) (j : nat) :
  Forall (fun f => Str.trim f = f) (fst (Server.parseCSVRow lines j)).
Proof.
  unfold Server.parseCSVRow.
  destruct (Server.parseCSVRow_from _ _ _ _) as [line li]. cbn [fst].
  apply parseCSVLine_fields.
Qed.

(** X4. No header and no cell of a loaded table starts or ends with white
    space: [trim] leaves each of them as it is. This holds for every text
    given to the server loader and for every record set given to the
    client loader. *)
Theorem loaded_cells_are_trimmed :
  (forall csvText,
     Forall (fun f => Str.trim f = f) (headers (Server.parseCSV csvText))
     /\ Forall (Forall (fun f => Str.trim f = f))
          (rows (Server.parseCSV csvText)))
  /\ (forall row0 rest,
        exists t, Client.loadCSVData (row0 :: rest) = Loaded t
        /\ Forall (fun f => Str.trim f = f) (headers t)
        /\ Forall (Forall (fun f => Str.trim f = f)) (rows t)).
Proof.
  split.
  - intros csvText. unfold Server.parseCSV.
    destruct (Str.split Server.newline csvText) as [|line0 more];
      [split; constructor|].
    cbn [headers rows]. split; [apply parseCSVLine_fields|].
    apply parseCSV_rows_stored; [|constructor].
    intros j _. apply normalizeRow_trimmed, parseCSVRow_trimmed.
  - intros row0 rest. eexists. split; [reflexivity|]. cbn [headers rows].
    split.
    + apply List.Forall_forall. intros f Hf.
      apply in_map_iff in Hf as (g & <- & _). apply trim_idem.
    + apply List.Forall_forall. intros r Hr.
      apply in_map_iff in Hr as (src & <- & _).
      apply List.Forall_forall. intros f Hf.
      apply in_map_iff in Hf as (g & <- & _). apply trim_idem.
Qed.

(** ** [parseCSVRow]: logical rows *)

Lemma count_app (c : ascii) (a b : string) :
  Str.count c (a ++ b) = Str.count c a + Str.count c b.
Proof.
  induction a as [|x a IH]; [reflexivity|].
  change (String x a ++ b)%string with (String x (a ++ b)%string).
  cbn [Str.count]. rewrite IH. lia.
Qed.

Lemma list_sum_cons (x : nat) (l : list nat) :
  list_sum (x :: l) = x + list_sum l.
Proof. reflexivity. Qed.

(** The quotes of joined lines are the quotes of the lines. *)
Lemma count_join_lines (l : list string) :
  Str.count Server.dquote (Csv.join (String Server.newline "") l) =
  list_sum (List.map (Str.count Server.dquote) l).
Proof.
  induction l as [|x l IH]; [reflexivity|].
  destruct l as [|y l]; [cbn; lia|].
  change (Csv.join (String Server.newline "") (x :: y :: l))
    with (x ++ String Server.newline "" ++
          Csv.join (String Server.newline "") (y :: l))%string.
  rewrite !count_app, IH. reflexivity.
Qed.

Lemma join_lines_merge (a b : string) (l : list string) :
  Csv.join (String Server.newline "") ((a ++ String Server.newline b)%string :: l) =
  Csv.join (String Server.newline "") (a :: b :: l).
Proof.
  destruct l as [|x l].
  - reflexivity.
  - change (Csv.join (String Server.newline "")
              ((a ++ String Server.newline b)%string :: x :: l))
      with ((a ++ String Server.newline b) ++ String Server.newline "" ++
            Csv.join (String Server.newline "") (x :: l))%string.
    change (Csv.join (String Server.newline "") (a :: b :: x :: l))
      with (a ++ String Server.newline "" ++ b ++ String Server.newline "" ++
            Csv.join (String Server.newline "") (x :: l))%string.
    rewrite append_assoc. reflexivity.
Qed.

(** The loop of [parseCSVRow] stops at the first balance of quotes, or at
    the end of the input. *)
Lemma parseCSVRow_from_spec (rest : list string) :
  forall (cur : string) (i n : nat),
  exists k,
    k <= length rest
    /\ Server.parseCSVRow_from rest cur i n =
       (Csv.join (String Server.newline "") (cur :: firstn k rest), i + k)
    /\ (k = length rest \/
        Nat.odd (n + list_sum (List.map (Str.count Server.dquote)
                                 (firstn k rest))) = false)
    /\ (forall j, j < k ->
        Nat.odd (n + list_sum (List.map (Str.count Server.dquote)
                                 (firstn j rest))) = true).
Proof.
  induction rest as [|next rest IH]; intros cur i n.
  - exists 0. cbn. repeat split; auto with arith. intros j Hj. lia.
  - cbn [Server.parseCSVRow_from].
    destruct (Nat.odd n) eqn:Hodd.
    + destruct (IH (cur ++ String Server.newline next)%string (i + 1)
                  (n + Str.count Server.dquote next))
        as (k & Hk & Heq & Hstop & Hmin).
      exists (S k). cbn [length firstn List.map]. rewrite ?list_sum_cons.
      split; [lia|]. split.
      * rewrite Heq, join_lines_merge. f_equal. lia.
      * split.
        -- destruct Hstop as [->|Hstop]; [left; reflexivity|right].
           rewrite Nat.add_assoc. exact Hstop.
        -- intros [|j] Hj.
           ++ cbn. rewrite Nat.add_0_r. exact Hodd.
           ++ cbn [firstn List.map]. rewrite list_sum_cons, Nat.add_assoc.
              apply Hmin. lia.
    + exists 0. cbn [firstn List.map length].
      change (list_sum []) with 0.
      rewrite !Nat.add_0_r. repeat split; auto with arith.
      intros j Hj. lia.
Qed.

(** X5. A logical row starts at a physical line and takes the fewest
    following lines that bring the double quotes to an even count, or all
    the lines that are left when no such point comes; these lines, joined
    by line feeds, are what [parseCSVLine] reads, and the next row starts
    right after them. *)
Theorem parseCSVRow_takes_balanced_lines (lines : list string) (i : nat) :
  i < length lines ->
  exists k,
    1 <= k /\ i + k <= length lines
    /\ Server.parseCSVRow lines i =
       (Server.parseCSVLine
          (Csv.join (String Server.newline "") (firstn k (skipn i lines))),
        i + k)
    /\ (i + k = length lines \/
        Nat.even (Str.count Server.dquote
                    (Csv.join (String Server.newline "")
                       (firstn k (skipn i lines)))) = true)
    /\ (forall j, 1 <= j < k ->
        Nat.odd (Str.count Server.dquote
                   (Csv.join (String Server.newline "")
                      (firstn j (skipn i lines)))) = true).
Proof.
  intros Hi.
  destruct (lines !! i) as [cur|] eqn:Hcur;
    [|apply lookup_ge_None in Hcur; lia].
  assert (Hdrop : skipn i lines = cur :: skipn (i + 1) lines).
  { rewrite Nat.add_1_r. apply (drop_S lines cur i Hcur). }
  destruct (parseCSVRow_from_spec (skipn (i + 1) lines) cur i
              (Str.count Server.dquote cur))
    as (k & Hk & Heq & Hstop & Hmin).
  rewrite length_skipn in Hk.
  exists (S k). split; [lia|]. split; [lia|].
  rewrite Hdrop. cbn [firstn]. split; [|split].
  - unfold Server.parseCSVRow. rewrite Hcur. cbn [default from_option id].
    rewrite Heq. f_equal. lia.
  - destruct Hstop as [->|Hstop].
    + left. rewrite length_skipn. lia.
    + right. rewrite count_join_lines. cbn [List.map].
      rewrite list_sum_cons, <- Nat.negb_odd, Hstop. reflexivity.
  - intros [|j] Hj; [lia|]. cbn [firstn].
    rewrite count_join_lines. cbn [List.map]. rewrite list_sum_cons.
    apply Hmin. lia.
Qed.

Lemma parseCSVRow_takes_balanced_lines_witness :
  let open := ("1," ++ String Server.dquote "two")%string in
  let close := ("lines" ++ String Server.dquote ",3")%string in
  let lines := ["a,b,c"; open; close; "4,5,6"] in
  1 < length lines
  /\ (exists k,
        1 <= k /\ 1 + k <= length lines
        /\ Server.parseCSVRow lines 1 =
           (Server.parseCSVLine
              (Csv.join (String Server.newline "") (firstn k (skipn 1 lines))),
            1 + k)
        /\ (1 + k = length lines \/
            Nat.even (Str.count Server.dquote
                        (Csv.join (String Server.newline "")
                           (firstn k (skipn 1 lines)))) = true)
        /\ (forall j, 1 <= j < k ->
            Nat.odd (Str.count Server.dquote
                       (Csv.join (String Server.newline "")
                          (firstn j (skipn 1 lines)))) = true))
  /\ Server.parseCSVRow lines 1 =
     (["1"; ("two" ++ String Server.newline "lines")%string; "3"], 3).
Proof.
  intros open close lines.
  assert (Hi : 1 < length lines) by (cbn; lia).
  split; [exact Hi|]. split.
  - exact (parseCSVRow_takes_balanced_lines lines 1 Hi).
  - vm_compute. reflexivity.
Defined.

(** ** [parseCSV] on text without quotes *)

Lemma count_split_zero (c sep : ascii) (s : string) :
  Str.count c s = 0 ->
  Forall (fun l => Str.count c l = 0) (Str.split sep s).
Proof.
  induction s as [|x r IH]; cbn [Str.split Str.count]; intros H.
  - constructor; [reflexivity | constructor].
  - assert (Hr : Str.count c r = 0) by lia.
    specialize (IH Hr).
    destruct (Ascii.eqb x sep).
    + constructor; [reflexivity | exact IH].
    + destruct (Str.split sep r) as [|y ys].
      * constructor; [cbn [Str.count]; lia | constructor].
      * apply Forall_cons in IH as [Hy Hys].
        constructor; [cbn [Str.count]; lia | exact Hys].
Qed.

Lemma parseCSVRow_unquoted (lines : list string) (i : nat) (line : string) :
  lines !! i = Some line ->
  Str.count Server.dquote line = 0 ->
  Server.parseCSVRow lines i =
  (List.map Str.trim (Str.split Server.comma line), i + 1).
Proof.
  intros Hline Hq. unfold Server.parseCSVRow.
  rewrite Hline. cbn [default from_option id]. rewrite Hq.
  assert (Hfrom : Server.parseCSVRow_from (skipn (i + 1) lines) line i 0 =
                  (line, i)) by (destruct (skipn (i + 1) lines); reflexivity).
  rewrite Hfrom, parseCSVLine_without_quotes_aux by exact Hq. reflexivity.
Qed.

Lemma parseCSV_rows_unquoted (lines : list string) (width i : nat)
    (acc : list Row) :
  Forall (fun l => Str.count Server.dquote l = 0) lines ->
  Server.parseCSV_rows lines width i acc =
  acc ++ List.map
           (fun l => normalizeRow width
                       (List.map Str.trim (Str.split Server.comma l)))
           (List.filter (fun l => negb (Str.isEmpty (Str.trim l)))
              (skipn i lines)).
Proof.
  intros Hq. funelim (Server.parseCSV_rows lines width i acc).
  - rewrite skipn_all2 by lia. cbn [List.filter List.map].
    rewrite app_nil_r. reflexivity.
  - destruct (lookup_lt_is_Some_2 lines i l) as [line Hline].
    rewrite (drop_S _ _ _ Hline). replace (S i) with (i + 1) by lia.
    rewrite Hline in Heq. cbn [default from_option id] in Heq.
    cbn [List.filter]. rewrite Heq. cbn [negb]. exact (H Hq).
  - destruct (lookup_lt_is_Some_2 lines i l) as [line Hline].
    assert (Hline0 : Str.count Server.dquote line = 0).
    { rewrite Forall_lookup in Hq. exact (Hq i line Hline). }
    pose proof Hrow as Hrow'.
    rewrite (parseCSVRow_unquoted lines i line Hline Hline0) in Hrow'.
    injection Hrow' as Hr Hn.
    rewrite (H Hq). rewrite <- Hn, <- Hr.
    rewrite (drop_S _ _ _ Hline). replace (S i) with (i + 1) by lia.
    rewrite Hline in Heq. cbn [default from_option id] in Heq.
    cbn [List.filter]. rewrite Heq. cbn [negb List.map].
    destruct (split_cons Server.comma line) as (x & xs & ->).
    cbn [List.map length Nat.ltb Nat.leb].
    rewrite <- app_assoc. reflexivity.
Qed.

(** X6. On a text without double quotes the server loader is line by line:
    the first line gives the headers, every later line that is not blank
    gives one row, cut at its commas, trimmed and brought to the header
    width, in the order of the text. *)
Theorem parseCSV_without_quotes (csvText : string) :
  Str.count Server.dquote csvText = 0 ->
  exists line0 more,
    Str.split Server.newline csvText = line0 :: more
    /\ headers (Server.parseCSV csvText) =
       List.map Str.trim (Str.split Server.comma line0)
    /\ rows (Server.parseCSV csvText) =
       List.map
         (fun l => normalizeRow (length (Str.split Server.comma line0))
                     (List.map Str.trim (Str.split Server.comma l)))
         (List.filter (fun l => negb (Str.isEmpty (Str.trim l))) more).
Proof.
  intros Hq. unfold Server.parseCSV.
  pose proof (count_split_zero Server.dquote Server.newline csvText Hq) as Hl.
  destruct (Str.split Server.newline csvText) as [|line0 more] eqn:E.
  - pose proof (split_length Server.newline csvText) as Hlen.
    rewrite E in Hlen. discriminate Hlen.
  - exists line0, more. split; [reflexivity|].
    pose proof Hl as Hl'. apply Forall_cons in Hl' as [H0 _].
    cbn [headers rows].
    rewrite (parseCSVLine_without_quotes_aux line0 H0).
    split; [reflexivity|].
    rewrite (parseCSV_rows_unquoted _ _ 1 [] Hl).
    rewrite length_map. reflexivity.
Qed.

Lemma parseCSV_without_quotes_witness :
  let csvText := String.concat (String Server.newline "")
                   ["name, city"; "Ann ,Oslo,extra"; "   "; "Bob"] in
  Str.count Server.dquote csvText = 0
  /\ (exists line0 more,
        Str.split Server.newline csvText = line0 :: more
        /\ headers (Server.parseCSV csvText) =
           List.map Str.trim (Str.split Server.comma line0)
        /\ rows (Server.parseCSV csvText) =
           List.map
             (fun l => normalizeRow (length (Str.split Server.comma line0))
                         (List.map Str.trim (Str.split Server.comma l)))
             (List.filter (fun l => negb (Str.isEmpty (Str.trim l))) more))
  /\ Server.parseCSV csvText =
     mkCSVData ["name"; "city"] [["Ann"; "Oslo"]; ["Bob"; ""]].
Proof.
  intros csvText.
  assert (Hq : Str.count Server.dquote csvText = 0) by (vm_compute; reflexivity).
  split; [exact Hq|].
  split; [exact (parseCSV_without_quotes csvText Hq)|].
  vm_compute; reflexivity.
Defined.


(** ** The shape of a result *)

Lemma selectColumns_lengths (nq : string) (hs : list string) :
  length (fst (selectColumns nq hs)) = length (snd (selectColumns nq hs)).
Proof.
  unfold selectColumns.
  destruct (selectMatch nq) as [inner|];
    [destruct (negb (String.eqb (Str.trim inner) "*"))|];
    cbn [fst snd]; rewrite ?length_map, ?length_seq; reflexivity.
Qed.

Lemma project_length (ci : list nat) (arr : list Row) :
  length (project ci arr) = length arr.
Proof. unfold project. apply length_map. Qed.

Lemma project_shape (ci : list nat) (arr : list Row) :
  Forall (fun row : Row => length row = length ci) (project ci arr).
Proof.
  unfold project. apply List.Forall_forall. intros r Hr.
  apply in_map_iff in Hr as (src & <- & _). apply length_map.
Qed.

Lemma unsupported_rectangular : rectangular unsupported.
Proof. split; [reflexivity | repeat constructor]. Qed.

Lemma select_result_rectangular (nq : string) (hs : list string)
    (arr : list Row) :
  rectangular
    (let '(selectedColumns, columnIndices) := selectColumns nq hs in
     let resultRows := project columnIndices arr in
     mkQueryResult selectedColumns resultRows (length resultRows)).
Proof.
  pose proof (selectColumns_lengths nq hs) as Hlen.
  destruct (selectColumns nq hs) as [sc ci]. cbn [fst snd] in Hlen.
  split; cbn [rowCount resultRows columns]; [reflexivity|].
  rewrite Hlen. apply project_shape.
Qed.

(** X7. Whatever the query and the table, ragged tables included, either
    engine returns a rectangular result: as many cells in every row as
    there are column names, and a row count equal to the number of rows. *)
Theorem result_is_rectangular
    (localeCompare : string -> string -> Z) (query : string) (t : CSVData) :
  rectangular (Client.execute localeCompare query t)
  /\ rectangular (Server.executeCSVQuery query t).
Proof.
  destruct (Str.includes (normalize query) "select") eqn:Hsel; split.
  - rewrite execute_select by exact Hsel. apply select_result_rectangular.
  - rewrite server_execute_select by exact Hsel.
    apply select_result_rectangular.
  - rewrite execute_unsupported by exact Hsel. apply unsupported_rectangular.
  - rewrite server_execute_unsupported by exact Hsel.
    apply unsupported_rectangular.
Qed.

(** ** How many rows a query returns *)

Lemma filter_length_bound {A} (f : A -> bool) (l : list A) :
  length (List.filter f l) <= length l.
Proof.
  induction l as [|x l IH]; cbn [List.filter length]; [lia|].
  destruct (f x); cbn [length]; lia.
Qed.

Lemma select_rowCount (nq : string) (hs : list string) (arr : list Row) :
  rowCount
    (let '(selectedColumns, columnIndices) := selectColumns nq hs in
     let resultRows := project columnIndices arr in
     mkQueryResult selectedColumns resultRows (length resultRows)) =
  length arr.
Proof.
  destruct (selectColumns nq hs) as [sc ci]. cbn [rowCount].
  apply project_length.
Qed.

Lemma applyLimit_length (nq : string) (arr : list Row) :
  length (applyLimit nq arr) =
  match limitMatch nq with
  | Some limit => Nat.min limit (length arr)
  | None => length arr
  end.
Proof.
  unfold applyLimit. destruct (limitMatch nq); [apply length_firstn|reflexivity].
Qed.

(** X8. The row count of a SELECT. The WHERE block leaves some of the
    table's rows; ORDER BY changes nothing in their number; with
    [LIMIT n] the result has the smaller of [n] and that number of rows
    (none for [LIMIT 0]), and without a LIMIT clause all of them. *)
Theorem row_count_of_select
    (localeCompare : string -> string -> Z) (query : string) (t : CSVData) :
  Str.includes (normalize query) "select" = true ->
  rowCount (Client.execute localeCompare query t) =
    match limitMatch (normalize query) with
    | Some limit => Nat.min limit (length (Client.filtered query t))
    | None => length (Client.filtered query t)
    end
  /\ rowCount (Server.executeCSVQuery query t) =
    match limitMatch (normalize query) with
    | Some limit => Nat.min limit (length (Server.filtered query t))
    | None => length (Server.filtered query t)
    end
  /\ length (Client.filtered query t) <= length (rows t)
  /\ length (Server.filtered query t) <= length (rows t).
Proof.
  intros Hsel. repeat split.
  - rewrite execute_select by exact Hsel. rewrite select_rowCount.
    unfold Client.survivors. rewrite applyLimit_length.
    rewrite (Permutation_length (ordered_perm localeCompare query t _)).
    reflexivity.
  - rewrite server_execute_select by exact Hsel. rewrite select_rowCount.
    unfold Server.survivors. apply applyLimit_length.
  - unfold Client.filtered. destruct (whereMatch (normalize query));
      [apply filter_length_bound | lia].
  - unfold Server.filtered. destruct (whereMatch (normalize query));
      [apply filter_length_bound | lia].
Qed.

Lemma row_count_of_select_witness :
  let t := mkCSVData ["Year"; "Value"]
             [["2024"; "17"]; ["2023"; "4"]; ["2024"; "9"]] in
  let query := "SELECT Value FROM t WHERE Year = 2024 ORDER BY Value LIMIT 5" in
  Str.includes (normalize query) "select" = true
  /\ limitMatch (normalize query) = Some 5
  /\ length (Client.filtered query t) = 2
  /\ rowCount (Client.execute codeUnitCompare query t) = 2
  /\ rowCount (Server.executeCSVQuery query t) = 2.
Proof.
  intros t query.
  assert (Hsel : Str.includes (normalize query) "select" = true)
    by (vm_compute; reflexivity).
  assert (Hlim : limitMatch (normalize query) = Some 5)
    by (vm_compute; reflexivity).
  assert (Hc : length (Client.filtered query t) = 2)
    by (vm_compute; reflexivity).
  assert (Hs : length (Server.filtered query t) = 2)
    by (vm_compute; reflexivity).
  destruct (row_count_of_select codeUnitCompare query t Hsel)
    as (Hclient & Hserver & _ & _).
  rewrite Hlim, Hc in Hclient. rewrite Hlim, Hs in Hserver.
  repeat (apply conj); assumption.
Defined.

(** ** Where the rows of a result come from *)

Lemma filter_sublist {A} (f : A -> bool) (l : list A) :
  sublist (List.filter f l) l.
Proof.
  induction l as [|x l IH]; cbn [List.filter]; [constructor|].
  destruct (f x); [apply sublist_skip | apply sublist_cons]; exact IH.
Qed.

Lemma applyLimit_sublist (nq : string) (arr : list Row) :
  sublist (applyLimit nq arr) arr.
Proof.
  unfold applyLimit. destruct (limitMatch nq); [apply sublist_take|reflexivity].
Qed.

Lemma server_filtered_sublist (query : string) (t : CSVData) :
  sublist (Server.filtered query t) (rows t).
Proof.
  unfold Server.filtered. destruct (whereMatch (normalize query));
    [apply filter_sublist | reflexivity].
Qed.

Lemma client_filtered_sublist (query : string) (t : CSVData) :
  sublist (Client.filtered query t) (rows t).
Proof.
  unfold Client.filtered. destruct (whereMatch (normalize query));
    [apply filter_sublist | reflexivity].
Qed.

(** X9. The rows a query projects are rows of the table, none taken
    twice. The server engine keeps them in table order: they are a
    subsequence of the table's rows. So does the client engine when the
    query has no ORDER BY clause; with one, they are a subsequence
    rearranged. *)
Theorem survivors_are_table_rows
    (localeCompare : string -> string -> Z) (query : string) (t : CSVData) :
  sublist (Server.survivors query t) (rows t)
  /\ submseteq (Client.survivors localeCompare query t) (rows t)
  /\ (Client.orderMatch (normalize query) = None ->
      sublist (Client.survivors localeCompare query t) (rows t)).
Proof.
  split; [|split].
  - unfold Server.survivors.
    etransitivity; [apply applyLimit_sublist | apply server_filtered_sublist].
  - unfold Client.survivors.
    etransitivity; [apply sublist_submseteq, applyLimit_sublist|].
    rewrite (ordered_perm localeCompare query t (Client.filtered query t)).
    apply sublist_submseteq, client_filtered_sublist.
  - intros Hord. unfold Client.survivors, Client.ordered. rewrite Hord.
    etransitivity; [apply applyLimit_sublist | apply client_filtered_sublist].
Qed.

(** ** Column selection, when the token names a header *)

Lemma findIndex_first {A} (p : A -> bool) (l : list A) (i : nat) (x : A) :
  l !! i = Some x ->
  p x = true ->
  Forall (fun y => p y = false) (firstn i l) ->
  findIndex p l = Some i.
Proof.
  revert i. induction l as [|y l IH]; intros i Hi Hx Hbefore.
  - discriminate Hi.
  - destruct i as [|i]; cbn [findIndex].
    + injection Hi as ->. rewrite Hx. reflexivity.
    + cbn [firstn] in Hbefore. apply Forall_cons in Hbefore as [Hy Hrest].
      rewrite Hy, (IH i Hi Hx Hrest). reflexivity.
Qed.

Lemma selectColumns_list (nq : string) (hs : list string) (inner : string) :
  selectMatch nq = Some inner ->
  Str.trim inner <> "*" ->
  selectColumns nq hs =
  (List.map (fun i => hs !! i)
     (List.map (columnIndexOf hs) (List.map Str.trim (Str.split "," inner))),
   List.map (columnIndexOf hs) (List.map Str.trim (Str.split "," inner))).
Proof.
  intros Hmatch Hstar. unfold selectColumns. rewrite Hmatch.
  apply String.eqb_neq in Hstar. rewrite Hstar. reflexivity.
Qed.

(** X10. A requested column token that equals a header, both taken in
    lower case, resolves to the first such header: at the token's position
    the result names that header as the table spells it, and every result
    row holds the cell of that column of the row it comes from. *)
Theorem named_column_is_projected
    (localeCompare : string -> string -> Z) (query : string) (t : CSVData)
    (inner token h : string) (k i : nat) :
  Str.includes (normalize query) "select" = true ->
  selectMatch (normalize query) = Some inner ->
  Str.trim inner <> "*" ->
  List.map Str.trim (Str.split "," inner) !! k = Some token ->
  headers t !! i = Some h ->
  Str.toLowerCase h = Str.toLowerCase token ->
  Forall (fun h' => Str.toLowerCase h' <> Str.toLowerCase token)
    (firstn i (headers t)) ->
  (columns (Client.execute localeCompare query t) !! k = Some (Some h)
   /\ List.map (fun r : Row => r !! k)
        (resultRows (Client.execute localeCompare query t)) =
      List.map (fun src : Row => Some (cell src i))
        (Client.survivors localeCompare query t))
  /\
  (columns (Server.executeCSVQuery query t) !! k = Some (Some h)
   /\ List.map (fun r : Row => r !! k)
        (resultRows (Server.executeCSVQuery query t)) =
      List.map (fun src : Row => Some (cell src i))
        (Server.survivors query t)).
Proof.
  intros Hsel Hmatch Hstar Htok Hh Heq Hbefore.
  assert (Hfound : headerIndex (headers t) token = Some i).
  { unfold headerIndex. apply (findIndex_first _ _ _ h Hh).
    - apply String.eqb_eq, Heq.
    - eapply List.Forall_impl; [|exact Hbefore].
      intros h' Hne. apply String.eqb_neq, Hne. }
  assert (Hidx : List.map (columnIndexOf (headers t))
                   (List.map Str.trim (Str.split "," inner)) !! k = Some i).
  { rewrite lookup_map, Htok. cbn [option_map]. unfold columnIndexOf.
    rewrite Hfound. reflexivity. }
  pose proof (selectColumns_list _ (headers t) _ Hmatch Hstar) as Hcols.
  split.
  - rewrite execute_select by exact Hsel. rewrite Hcols.
    cbn [columns resultRows]. split.
    + rewrite lookup_map, Hidx. cbn [option_map]. rewrite Hh. reflexivity.
    + apply project_column, Hidx.
  - rewrite server_execute_select by exact Hsel. rewrite Hcols.
    cbn [columns resultRows]. split.
    + rewrite lookup_map, Hidx. cbn [option_map]. rewrite Hh. reflexivity.
    + apply project_column, Hidx.
Qed.

Lemma named_column_is_projected_witness :
  let t := mkCSVData ["Year"; "Value"; "VALUE"]
             [["2024"; "17"; "x"]; ["2023"; "4"; "y"]] in
  let query := "SELECT year, vaLUE FROM t" in
  (Str.includes (normalize query) "select" = true
   /\ selectMatch (normalize query) = Some "year, value"
   /\ Str.trim "year, value" <> "*"
   /\ List.map Str.trim (Str.split "," "year, value") !! 1 = Some "value"
   /\ headers t !! 1 = Some "Value"
   /\ Str.toLowerCase "Value" = Str.toLowerCase "value"
   /\ Forall (fun h' => Str.toLowerCase h' <> Str.toLowerCase "value")
        (firstn 1 (headers t)))
  /\ columns (Client.execute codeUnitCompare query t) !! 1 = Some (Some "Value")
  /\ List.map (fun r : Row => r !! 1)
       (resultRows (Server.executeCSVQuery query t)) = [Some "17"; Some "4"].
Proof.
  intros t query.
  assert (Hsel : Str.includes (normalize query) "select" = true)
    by (vm_compute; reflexivity).
  assert (Hmatch : selectMatch (normalize query) = Some "year, value")
    by (vm_compute; reflexivity).
  assert (Hstar : Str.trim "year, value" <> "*")
    by (vm_compute; discriminate).
  assert (Htok : List.map Str.trim (Str.split "," "year, value") !! 1 =
                 Some "value") by (vm_compute; reflexivity).
  assert (Hh : headers t !! 1 = Some "Value") by reflexivity.
  assert (Heq : Str.toLowerCase "Value" = Str.toLowerCase "value")
    by (vm_compute; reflexivity).
  assert (Hbefore : Forall (fun h' => Str.toLowerCase h' <> Str.toLowerCase "value")
                      (firstn 1 (headers t))).
  { repeat constructor. vm_compute. discriminate. }
  split; [repeat (apply conj); assumption|].
  destruct (named_column_is_projected codeUnitCompare query t
              "year, value" "value" "Value" 1 1
              Hsel Hmatch Hstar Htok Hh Heq Hbefore)
    as [[Hc _] [_ Hr]].
  split; [exact Hc|].
  rewrite Hr. vm_compute. reflexivity.
Defined.

(** ** The wildcard, in any query *)

Lemma selectColumns_star (nq : string) (hs : list string) (inner : string) :
  selectMatch nq = Some inner ->
  Str.trim inner = "*" ->
  selectColumns nq hs = (List.map Some hs, seq 0 (length hs)).
Proof.
  intros Hmatch Hstar. unfold selectColumns. rewrite Hmatch, Hstar.
  reflexivity.
Qed.

(** X11. When the text between [select] and [from] is a [*], alone or
    with white space around it, both engines return every header as
    columns, and the rows a well-formed table's WHERE, ORDER BY and LIMIT
    clauses leave come out whole. *)
Theorem wildcard_returns_whole_rows
    (localeCompare : string -> string -> Z) (query : string) (t : CSVData)
    (inner : string) :
  wellFormed t ->
  Str.includes (normalize query) "select" = true ->
  selectMatch (normalize query) = Some inner ->
  Str.trim inner = "*" ->
  Client.execute localeCompare query t =
    mkQueryResult (List.map Some (headers t))
      (Client.survivors localeCompare query t)
      (length (Client.survivors localeCompare query t))
  /\ Server.executeCSVQuery query t =
    mkQueryResult (List.map Some (headers t))
      (Server.survivors query t)
      (length (Server.survivors query t)).
Proof.
  intros Hwf Hsel Hmatch Hstar.
  pose proof (selectColumns_star _ (headers t) _ Hmatch Hstar) as Hcols.
  split.
  - rewrite execute_select by exact Hsel. rewrite Hcols. cbv zeta.
    rewrite project_all
      by (apply wellFormed_incl; [exact Hwf | apply survivors_incl]).
    reflexivity.
  - rewrite server_execute_select by exact Hsel. rewrite Hcols. cbv zeta.
    rewrite project_all
      by (apply wellFormed_incl; [exact Hwf | apply server_survivors_incl]).
    reflexivity.
Qed.

Lemma wildcard_returns_whole_rows_witness :
  let t := mkCSVData ["Year"; "Value"]
             [["2024"; "17"]; ["2023"; "4"]; ["2024"; "9"]] in
  let query := "select  *  from t where year = 2024 limit 1" in
  (wellFormed t
   /\ Str.includes (normalize query) "select" = true
   /\ selectMatch (normalize query) = Some "*"
   /\ Str.trim "*" = "*")
  /\ Client.execute codeUnitCompare query t =
       mkQueryResult [Some "Year"; Some "Value"] [["2024"; "17"]] 1
  /\ Server.executeCSVQuery query t =
       mkQueryResult [Some "Year"; Some "Value"] [["2024"; "17"]] 1.
Proof.
  intros t query.
  assert (Hwf : wellFormed t) by (repeat constructor).
  assert (Hsel : Str.includes (normalize query) "select" = true)
    by (vm_compute; reflexivity).
  assert (Hmatch : selectMatch (normalize query) = Some "*")
    by (vm_compute; reflexivity).
  assert (Hstar : Str.trim "*" = "*") by reflexivity.
  split; [repeat (apply conj); assumption|].
  destruct (wildcard_returns_whole_rows codeUnitCompare query t "*"
              Hwf Hsel Hmatch Hstar) as [Hc Hs].
  split.
  - rewrite Hc. vm_compute. reflexivity.
  - rewrite Hs. vm_compute. reflexivity.
Defined.

(** ** WHERE clauses the engines cannot read *)

Lemma filter_all {A} (f : A -> bool) (l : list A) :
  (forall x, In x l -> f x = true) -> List.filter f l = l.
Proof.
  induction l as [|x l IH]; intros H; cbn [List.filter]; [reflexivity|].
  rewrite (H x (or_introl eq_refl)), IH; [reflexivity|].
  intros y Hy. apply H. right. exact Hy.
Qed.

(** X12. A WHERE clause filters nothing, in either engine, when it has
    neither [=] nor [like] in it (a comparison with [<] or [>], say), or
    when it has an [=] whose column token equals no header: every row of
    the table goes on to ORDER BY and LIMIT, and no error is raised. *)
Theorem unreadable_where_keeps_every_row
    (query : string) (t : CSVData) (clause : string) :
  whereMatch (normalize query) = Some clause ->
  (Str.includes clause "=" = false /\ Str.includes clause "like" = false)
  \/ (exists column value more,
        List.map Str.trim (Str.split "=" clause) = column :: value :: more
        /\ Forall (fun h => Str.toLowerCase h <> Str.toLowerCase column)
             (headers t)) ->
  Server.filtered query t = rows t /\ Client.filtered query t = rows t.
Proof.
  intros Hwhere Hcase. unfold Server.filtered, Client.filtered.
  rewrite Hwhere.
  destruct Hcase as [[Hnoeq Hnolike] | (column & value & more & Hsplit & Hnone)].
  - split; apply filter_all; intros row _.
    + unfold Server.whereKeeps. rewrite Hnoeq. reflexivity.
    + unfold Client.whereKeeps. rewrite Hnoeq, Hnolike. reflexivity.
  - apply headerIndex_none in Hnone.
    assert (Hinc : Str.includes clause "=" = true).
    { destruct (Str.split "=" clause) as [|a [|b l]] eqn:E;
        try discriminate Hsplit.
      exact (split_two_includes _ _ _ _ _ E). }
    split; apply filter_all; intros row _.
    + unfold Server.whereKeeps. rewrite Hinc, Hsplit, Hnone. reflexivity.
    + unfold Client.whereKeeps. rewrite Hinc, Hsplit, Hnone. reflexivity.
Qed.

Lemma unreadable_where_keeps_every_row_witness :
  let t := mkCSVData ["Year"; "Value"] [["2024"; "17"]; ["2023"; "4"]] in
  (whereMatch (normalize "SELECT * FROM t WHERE Value > 5") = Some "value > 5"
   /\ Str.includes "value > 5" "=" = false
   /\ Str.includes "value > 5" "like" = false
   /\ Server.filtered "SELECT * FROM t WHERE Value > 5" t = rows t
   /\ Client.filtered "SELECT * FROM t WHERE Value > 5" t = rows t)
  /\ (whereMatch (normalize "SELECT * FROM t WHERE Month = 5") = Some "month = 5"
      /\ List.map Str.trim (Str.split "=" "month = 5") = ["month"; "5"]
      /\ Forall (fun h => Str.toLowerCase h <> Str.toLowerCase "month")
           (headers t)
      /\ Server.filtered "SELECT * FROM t WHERE Month = 5" t = rows t
      /\ Client.filtered "SELECT * FROM t WHERE Month = 5" t = rows t).
Proof.
  intros t. split.
  - assert (Hwhere : whereMatch (normalize "SELECT * FROM t WHERE Value > 5") =
                     Some "value > 5") by (vm_compute; reflexivity).
    assert (Hnoeq : Str.includes "value > 5" "=" = false)
      by (vm_compute; reflexivity).
    assert (Hnolike : Str.includes "value > 5" "like" = false)
      by (vm_compute; reflexivity).
    destruct (unreadable_where_keeps_every_row
                "SELECT * FROM t WHERE Value > 5" t "value > 5" Hwhere
                (or_introl (conj Hnoeq Hnolike))) as [Hs Hc].
    repeat (apply conj); assumption.
  - assert (Hwhere : whereMatch (normalize "SELECT * FROM t WHERE Month = 5") =
                     Some "month = 5") by (vm_compute; reflexivity).
    assert (Hsplit : List.map Str.trim (Str.split "=" "month = 5") =
                     ["month"; "5"]) by (vm_compute; reflexivity).
    assert (Hnone : Forall (fun h => Str.toLowerCase h <> Str.toLowerCase "month")
                      (headers t)).
    { repeat constructor; vm_compute; discriminate. }
    destruct (unreadable_where_keeps_every_row
                "SELECT * FROM t WHERE Month = 5" t "month = 5" Hwhere
                (or_intror (ex_intro _ "month" (ex_intro _ "5" (ex_intro _ []
                   (conj Hsplit Hnone)))))) as [Hs Hc].
    repeat (apply conj); assumption.
Defined.

(** ** Where the two engines agree *)

Lemma whereKeeps_agree (hs : list string) (clause : string) (row : Row) :
  length row = length hs ->
  Str.includes clause "=" = true \/ Str.includes clause "like" = false ->
  Client.whereKeeps hs clause row = Server.whereKeeps hs clause row.
Proof.
  intros Hlen Hcase. unfold Client.whereKeeps, Server.whereKeeps.
  destruct (Str.includes clause "=") eqn:Heq.
  - destruct (List.map Str.trim (Str.split "=" clause)) as [|column [|value more]];
      try reflexivity.
    destruct (headerIndex hs column) as [columnIndex|] eqn:Hcol; [|reflexivity].
    apply findIndex_lt in Hcol.
    rewrite (lookup_cell row columnIndex) by lia. reflexivity.
  - destruct Hcase as [Hc|Hc]; [discriminate Hc|]. rewrite Hc. reflexivity.
Qed.

(** X13. On a well-formed table the client and the server engine return
    the same result for every query whose WHERE clause, if it has one,
    contains an [=] or no [like], and whose ORDER BY column, if it has
    one, equals no header: the engines differ in the LIKE filter and in
    the sort, and in nothing else. *)
Theorem engines_agree
    (localeCompare : string -> string -> Z) (query : string) (t : CSVData) :
  wellFormed t ->
  (forall clause, whereMatch (normalize query) = Some clause ->
     Str.includes clause "=" = true \/ Str.includes clause "like" = false) ->
  (forall column direction,
     Client.orderMatch (normalize query) = Some (column, direction) ->
     headerIndex (headers t) column = None) ->
  Client.execute localeCompare query t = Server.executeCSVQuery query t.
Proof.
  intros Hwf Hwhere Horder.
  destruct (Str.includes (normalize query) "select") eqn:Hsel.
  - rewrite execute_select, server_execute_select by exact Hsel.
    assert (Hsurv : Client.survivors localeCompare query t =
                    Server.survivors query t).
    { unfold Client.survivors, Server.survivors. f_equal.
      assert (Hord : forall arr, Client.ordered localeCompare query t arr = arr).
      { intros arr. unfold Client.ordered.
        destruct (Client.orderMatch (normalize query))
          as [[column direction]|]; [|reflexivity].
        rewrite (Horder column direction eq_refl). reflexivity. }
      rewrite Hord. unfold Client.filtered, Server.filtered.
      destruct (whereMatch (normalize query)) as [clause|]; [|reflexivity].
      apply filter_ext_in. intros row Hrow.
      apply whereKeeps_agree; [|apply Hwhere; reflexivity].
      unfold wellFormed in Hwf. rewrite List.Forall_forall in Hwf.
      exact (Hwf row Hrow). }
    rewrite Hsurv. reflexivity.
  - rewrite execute_unsupported, server_execute_unsupported by exact Hsel.
    reflexivity.
Qed.

Lemma engines_agree_witness :
  let t := mkCSVData ["Year"; "Value"]
             [["2024"; "17"]; ["2023"; "4"]; ["2024"; "9"]] in
  let query := "SELECT Value FROM t WHERE Year = 2024 ORDER BY Month LIMIT 1" in
  wellFormed t
  /\ whereMatch (normalize query) = Some "year = 2024"
  /\ Client.orderMatch (normalize query) = Some ("month", None)
  /\ headerIndex (headers t) "month" = None
  /\ Client.execute codeUnitCompare query t = Server.executeCSVQuery query t
  /\ Server.executeCSVQuery query t = mkQueryResult [Some "Value"] [["17"]] 1.
Proof.
  intros t query.
  assert (Hwf : wellFormed t) by (repeat constructor).
  assert (Hw : whereMatch (normalize query) = Some "year = 2024")
    by (vm_compute; reflexivity).
  assert (Ho : Client.orderMatch (normalize query) = Some ("month", None))
    by (vm_compute; reflexivity).
  assert (Hh : headerIndex (headers t) "month" = None)
    by (vm_compute; reflexivity).
  split; [exact Hwf|]. split; [exact Hw|]. split; [exact Ho|].
  split; [exact Hh|]. split.
  - apply (engines_agree codeUnitCompare query t Hwf).
    + intros clause Hc. rewrite Hw in Hc. injection Hc as <-.
      left. vm_compute. reflexivity.
    + intros column direction Hc. rewrite Ho in Hc. injection Hc as <- <-.
      exact Hh.
  - vm_compute. reflexivity.
Defined.

(** ** A call on a table that lives in any store

    The component keeps one table object and hands it to every call. *)

Lemma fresh_set_other (X : gset Client.loc) (l : Client.loc) :
  l ∈ X -> fresh X <> l.
Proof. intros Hl E. apply (is_fresh X). rewrite E. exact Hl. Qed.

Ltac fresh_ne :=
  apply fresh_set_other; rewrite ?dom_insert_L, ?dom_singleton_L; set_solver.

Ltac heap_simpl :=
  repeat first
    [ rewrite lookup_total_insert_eq
    | rewrite lookup_total_singleton_eq
    | rewrite lookup_total_insert_ne by fresh_ne
    | rewrite lookup_insert_ne by fresh_ne ].

Section AnyStore.

Variable localeCompare : string -> string -> Z.

Lemma call_on_any_store (query : string) (data : Client.CSVObject)
    (h : Client.heap) :
  Client.obj_rows data ∈ dom h ->
  fst (Client.executeCSVQuery localeCompare query data h) =
    Client.execute localeCompare query (Client.tableOf data h)
  /\ Client.tableOf data (snd (Client.executeCSVQuery localeCompare query data h)) =
     Client.tableAfter localeCompare query (Client.tableOf data h)
  /\ Client.obj_rows data ∈
       dom (snd (Client.executeCSVQuery localeCompare query data h))
  /\ (forall l, l ∈ dom h -> l <> Client.obj_rows data ->
        snd (Client.executeCSVQuery localeCompare query data h) !! l = h !! l).
Proof.
  intros Hdom. destruct data as [hs l0]. 
  cbn [Client.obj_rows] in Hdom.
  open_call.
  destruct (Str.includes (normalize query) "select").
  - destruct (selectColumns (normalize query) hs) as [sc ci].
    store_steps. by_clauses query hs; cbn [fst snd].
    all: repeat (apply conj).
    all: heap_simpl; try reflexivity.
    all: rewrite ?dom_insert_L; try set_solver.
    all: intros l Hl Hne;
      repeat (rewrite lookup_insert_ne by (first [fresh_ne | congruence]));
      reflexivity.
  - cbn [fst snd]. heap_simpl. repeat (apply conj); auto.
Qed.

Lemma tableAfter_perm (query : string) (t : CSVData) :
  Permutation (rows (Client.tableAfter localeCompare query t)) (rows t).
Proof.
  destruct t as [hs rs]. open_call.
  destruct (Str.includes (normalize query) "select");
    [|cbn [fst snd]; heap_simpl; reflexivity].
  destruct (selectColumns (normalize query) hs) as [sc ci].
  store_steps. by_clauses query hs; cbn [fst snd rows]; heap_simpl;
    try reflexivity; apply sortBy_perm.
Qed.

(** X14. A call of the client engine on a table object in any store, the
    table's array being one of its arrays: the result is that of the call
    on the table alone; every other array of the store is left as it was
    (the arrays [filter] and [slice] make are new ones); the headers are
    untouched, and the table's array holds the same rows afterwards,
    possibly in another order. *)
Theorem client_call_frame (query : string) (data : Client.CSVObject)
    (h : Client.heap) :
  Client.obj_rows data ∈ dom h ->
  let h' := snd (Client.executeCSVQuery localeCompare query data h) in
  fst (Client.executeCSVQuery localeCompare query data h) =
    Client.execute localeCompare query (Client.tableOf data h)
  /\ (forall l, l ∈ dom h -> l <> Client.obj_rows data -> h' !! l = h !! l)
  /\ headers (Client.tableOf data h') = headers (Client.tableOf data h)
  /\ Permutation (rows (Client.tableOf data h')) (rows (Client.tableOf data h)).
Proof.
  intros Hdom h'.
  destruct (call_on_any_store query data h Hdom) as (Hres & Htab & _ & Hframe).
  split; [exact Hres|]. split; [exact Hframe|]. split; [reflexivity|].
  unfold h'. rewrite Htab. apply tableAfter_perm.
Qed.

End AnyStore.

Lemma client_call_frame_witness :
  let h : Client.heap := <[3 := [["2"]; ["1"]]]> {[5 := [["other"]]]} in
  let data := Client.mkCSVObject ["a"] 3 in
  let query := "SELECT * FROM t ORDER BY a" in
  Client.obj_rows data ∈ dom h
  /\ fst (Client.executeCSVQuery codeUnitCompare query data h) =
       mkQueryResult [Some "a"] [["1"]; ["2"]] 2
  /\ snd (Client.executeCSVQuery codeUnitCompare query data h) !! 5 =
       Some [["other"]]
  /\ Permutation
       (rows (Client.tableOf data
                (snd (Client.executeCSVQuery codeUnitCompare query data h))))
       [["2"]; ["1"]].
Proof.
  intros h data query.
  assert (Hdom : Client.obj_rows data ∈ dom h).
  { unfold h. rewrite dom_insert_L. set_solver. }
  destruct (client_call_frame codeUnitCompare query data h Hdom)
    as (Hres & Hframe & _ & Hperm).
  split; [exact Hdom|]. split; [|split].
  - rewrite Hres. vm_compute. reflexivity.
  - rewrite Hframe.
    + vm_compute. reflexivity.
    + unfold h. rewrite dom_insert_L, dom_singleton_L. set_solver.
    + cbn [Client.obj_rows data]. lia.
  - assert (Hrows : rows (Client.tableOf data h) = [["2"]; ["1"]])
      by (vm_compute; reflexivity).
    rewrite <- Hrows. exact Hperm.
Defined.

(** X15. Two calls in a row on the same table object: the second call
    answers as on the table the first call left. When the first query has
    a WHERE clause or no ORDER BY clause that is the table as it was; a
    first query with ORDER BY and without WHERE hands its order on to
    every later call. *)
Theorem later_call_sees_table_as_left
    (localeCompare : string -> string -> Z) (q1 q2 : string)
    (data : Client.CSVObject) (h : Client.heap) :
  Client.obj_rows data ∈ dom h ->
  let h1 := snd (Client.executeCSVQuery localeCompare q1 data h) in
  fst (Client.executeCSVQuery localeCompare q2 data h1) =
    Client.execute localeCompare q2
      (Client.tableAfter localeCompare q1 (Client.tableOf data h))
  /\ (is_Some (whereMatch (normalize q1))
      \/ Client.orderMatch (normalize q1) = None ->
      fst (Client.executeCSVQuery localeCompare q2 data h1) =
        Client.execute localeCompare q2 (Client.tableOf data h)).
Proof.
  intros Hdom h1.
  destruct (call_on_any_store localeCompare q1 data h Hdom)
    as (_ & Htab & Hdom1 & _).
  destruct (call_on_any_store localeCompare q2 data h1 Hdom1)
    as (Hres & _ & _ & _).
  assert (E : fst (Client.executeCSVQuery localeCompare q2 data h1) =
              Client.execute localeCompare q2
                (Client.tableAfter localeCompare q1 (Client.tableOf data h))).
  { rewrite Hres. unfold h1. rewrite Htab. reflexivity. }
  split; [exact E|].
  intros Hcase. rewrite E, (table_kept localeCompare q1 _ Hcase). reflexivity.
Qed.

Lemma later_call_sees_table_as_left_witness :
  let h : Client.heap := {[ 0 := [["2"]; ["1"]] ]} in
  let data := Client.mkCSVObject ["a"] 0 in
  let h1 := snd (Client.executeCSVQuery codeUnitCompare
                   "SELECT * FROM t ORDER BY a" data h) in
  Client.obj_rows data ∈ dom h
  /\ fst (Client.executeCSVQuery codeUnitCompare "SELECT * FROM t" data h) =
       mkQueryResult [Some "a"] [["2"]; ["1"]] 2
  /\ fst (Client.executeCSVQuery codeUnitCompare "SELECT * FROM t" data h1) =
       mkQueryResult [Some "a"] [["1"]; ["2"]] 2.
Proof.
  intros h data h1.
  assert (Hdom : Client.obj_rows data ∈ dom h).
  { unfold h. rewrite dom_singleton_L. set_solver. }
  destruct (later_call_sees_table_as_left codeUnitCompare
              "SELECT * FROM t ORDER BY a" "SELECT * FROM t" data h Hdom)
    as [Hres _].
  split; [exact Hdom|]. split.
  - vm_compute. reflexivity.
  - unfold h1. rewrite Hres. vm_compute. reflexivity.
Defined.

(** ** The queries the rule-based generator writes, run by the engines *)

Lemma generated_cases (P : string -> Prop) (question : string) :
  P "SELECT * FROM survey_data LIMIT 100" ->
  P "SELECT * FROM survey_data WHERE Variable_name = 'Total income' LIMIT 50" ->
  P "SELECT * FROM survey_data WHERE Industry_name_NZSIOC LIKE '%Agriculture%' LIMIT 50" ->
  P "SELECT * FROM survey_data WHERE Variable_category = 'Financial performance' LIMIT 50" ->
  P "SELECT * FROM survey_data WHERE Variable_category = 'Employment' LIMIT 50" ->
  P "SELECT Industry_name_NZSIOC, Value FROM survey_data WHERE Variable_name = 'Total income' ORDER BY CAST(Value AS DECIMAL) DESC LIMIT 10" ->
  P "SELECT * FROM survey_data LIMIT 20" ->
  P (Generator.generateSimpleSQL question).
Proof.
  intros H1 H2 H3 H4 H5 H6 H7. unfold Generator.generateSimpleSQL.
  repeat match goal with
         | |- context [if ?c then _ else _] => destruct c
         end; assumption.
Qed.

(** What the engines read in a generated query: a SELECT, a LIMIT of at
    most 100, a WHERE clause wherever there is an ORDER BY clause, and
    [cast] as the only ORDER BY column. *)
Lemma generated_query_clauses (question : string) :
  let nq := normalize (Generator.generateSimpleSQL question) in
  Str.includes nq "select" = true
  /\ (exists limit, limitMatch nq = Some limit /\ limit <= 100)
  /\ (is_Some (whereMatch nq) \/ Client.orderMatch nq = None)
  /\ (forall column direction,
        Client.orderMatch nq = Some (column, direction) -> column = "cast").
Proof.
  apply (generated_cases
           (fun sql =>
              let nq := normalize sql in
              Str.includes nq "select" = true
              /\ (exists limit, limitMatch nq = Some limit /\ limit <= 100)
              /\ (is_Some (whereMatch nq) \/ Client.orderMatch nq = None)
              /\ (forall column direction,
                    Client.orderMatch nq = Some (column, direction) ->
                    column = "cast")));
    cbv zeta;
    (split; [vm_compute; reflexivity|]);
    (split; [eexists; split; [vm_compute; reflexivity | lia]|]);
    (split;
       [first [right; vm_compute; reflexivity
              | left; eexists; vm_compute; reflexivity]|]);
    intros column direction H; vm_compute in H;
    first [discriminate H | injection H as <- <-; reflexivity].
Qed.

Lemma rowCount_within_limit
    (localeCompare : string -> string -> Z) (query : string) (t : CSVData)
    (limit : nat) :
  Str.includes (normalize query) "select" = true ->
  limitMatch (normalize query) = Some limit ->
  rowCount (Client.execute localeCompare query t) <= limit
  /\ rowCount (Server.executeCSVQuery query t) <= limit.
Proof.
  intros Hsel Hlim. split.
  - rewrite execute_select by exact Hsel. rewrite select_rowCount.
    unfold Client.survivors. rewrite applyLimit_length, Hlim. lia.
  - rewrite server_execute_select by exact Hsel. rewrite select_rowCount.
    unfold Server.survivors. rewrite applyLimit_length, Hlim. lia.
Qed.

(** X16. Whatever the question, the query the rule-based generator writes
    is one the engines take for a SELECT; either engine returns at most
    100 rows for it; and the client engine leaves the table as it was. *)
Theorem generated_query_is_bounded_select
    (localeCompare : string -> string -> Z) (question : string) (t : CSVData) :
  let sql := Generator.generateSimpleSQL question in
  Str.includes (normalize sql) "select" = true
  /\ rowCount (Client.execute localeCompare sql t) <= 100
  /\ rowCount (Server.executeCSVQuery sql t) <= 100
  /\ Client.tableAfter localeCompare sql t = t.
Proof.
  intros sql.
  destruct (generated_query_clauses question)
    as (Hsel & (limit & Hlim & Hle) & Hkept & _).
  fold sql in Hsel, Hlim, Hkept.
  destruct (rowCount_within_limit localeCompare sql t limit Hsel Hlim)
    as [Hc Hs].
  split; [exact Hsel|]. split; [lia|]. split; [lia|].
  apply table_kept, Hkept.
Qed.

(** X17. On a table without a header that reads [cast] in lower case, no
    generated query is sorted by the client engine, the one for the top
    industries with its [ORDER BY CAST(Value AS DECIMAL) DESC] included:
    the rows of the result are the first rows, in table order, of those
    the WHERE block left. *)
Theorem generated_query_is_not_sorted
    (localeCompare : string -> string -> Z) (question : string) (t : CSVData) :
  Forall (fun h => Str.toLowerCase h <> "cast") (headers t) ->
  let sql := Generator.generateSimpleSQL question in
  Client.survivors localeCompare sql t =
    applyLimit (normalize sql) (Client.filtered sql t)
  /\ sublist (Client.survivors localeCompare sql t) (rows t).
Proof.
  intros Hcast sql.
  destruct (generated_query_clauses question) as (_ & _ & _ & Hcol).
  fold sql in Hcol.
  assert (E : Client.survivors localeCompare sql t =
              applyLimit (normalize sql) (Client.filtered sql t)).
  { unfold Client.survivors, Client.ordered.
    destruct (Client.orderMatch (normalize sql)) as [[column direction]|];
      [|reflexivity].
    rewrite (Hcol column direction eq_refl).
    rewrite (headerIndex_none (headers t) "cast" Hcast). reflexivity. }
  split; [exact E|]. rewrite E.
  etransitivity; [apply applyLimit_sublist | apply client_filtered_sublist].
Qed.

Lemma generated_query_is_not_sorted_witness :
  let t := mkCSVData ["Industry_name_NZSIOC"; "Variable_name"; "Value"]
             [["Mining"; "Total income"; "5"];
              ["Retail"; "Total income"; "90"];
              ["Retail"; "Total expenditure"; "70"]] in
  let question := "Top industry by income" in
  Forall (fun h => Str.toLowerCase h <> "cast") (headers t)
  /\ Generator.generateSimpleSQL question =
     "SELECT Industry_name_NZSIOC, Value FROM survey_data WHERE Variable_name = 'Total income' ORDER BY CAST(Value AS DECIMAL) DESC LIMIT 10"
  /\ Client.survivors codeUnitCompare (Generator.generateSimpleSQL question) t =
     [["Mining"; "Total income"; "5"]; ["Retail"; "Total income"; "90"]]
  /\ Client.execute codeUnitCompare (Generator.generateSimpleSQL question) t =
     mkQueryResult [Some "Industry_name_NZSIOC"; Some "Value"]
       [["Mining"; "5"]; ["Retail"; "90"]] 2.
Proof.
  intros t question.
  assert (Hcast : Forall (fun h => Str.toLowerCase h <> "cast") (headers t)).
  { repeat constructor; vm_compute; discriminate. }
  destruct (generated_query_is_not_sorted codeUnitCompare question t Hcast)
    as [E _].
  split; [exact Hcast|]. split; [vm_compute; reflexivity|]. split.
  - rewrite E. vm_compute. reflexivity.
  - vm_compute. reflexivity.
Defined.

(** ** LIKE in the client engine: an example with [%] inside the pattern *)

Example like_pattern_with_inner_percent :
  let t := mkCSVData ["name"] [["abc"]; ["xACx"]; ["a-c"]] in
  let query := "SELECT * FROM t WHERE name LIKE 'a%c'" in
  let clause := "name like 'a%c'" in
  whereMatch (normalize query) = Some clause
  /\ Str.includes clause "=" = false
  /\ Str.includes clause "like" = true
  /\ (exists m, exec re_like clause = Some m
                /\ group 1 m = Some "name" /\ group 2 m = Some "a%c")
  /\ headerIndex (headers t) "name" = Some 0
  /\ Client.filtered query t =
     List.filter (fun row : Row =>
          Str.includes (Str.toLowerCase (cell row 0))
            (Str.toLowerCase (Str.removeAll (Ascii.eqb "%") "a%c")))
       (rows t)
  /\ Client.filtered query t = [["xACx"]].
Proof.
  intros t query clause.
  assert (Hwhere : whereMatch (normalize query) = Some clause)
    by (vm_compute; reflexivity).
  assert (Hnoeq : Str.includes clause "=" = false) by (vm_compute; reflexivity).
  assert (Hlike : Str.includes clause "like" = true) by (vm_compute; reflexivity).
  destruct (exec re_like clause) as [m|] eqn:Hm;
    [|vm_compute in Hm; discriminate Hm].
  assert (Hg1 : group 1 m = Some "name").
  { vm_compute in Hm. injection Hm as <-. vm_compute. reflexivity. }
  assert (Hg2 : group 2 m = Some "a%c").
  { vm_compute in Hm. injection Hm as <-. vm_compute. reflexivity. }
  assert (Hcol : headerIndex (headers t) "name" = Some 0)
    by (vm_compute; reflexivity).
  pose proof (client_like_keeps_substring_matches query t clause "name" "a%c"
                m 0 Hwhere Hnoeq Hlike Hm Hg1 Hg2 Hcol) as E.
  split; [exact Hwhere|]. split; [exact Hnoeq|]. split; [exact Hlike|].
  split; [exists m; repeat (apply conj); [reflexivity | assumption..]|].
  split; [exact Hcol|]. split; [exact E|].
  rewrite E. vm_compute. reflexivity.
Qed.

(** ** Letter case *)

Lemma findIndex_map {A B} (f : A -> B) (p : B -> bool) (l : list A) :
  findIndex p (List.map f l) = findIndex (fun x => p (f x)) l.
Proof.
  induction l as [|x l IH]; cbn [List.map findIndex]; [reflexivity|].
  rewrite IH. reflexivity.
Qed.

Lemma headerIndex_lower (hs : list string) (col : string) :
  headerIndex (List.map Str.toLowerCase hs) col = headerIndex hs col.
Proof.
  unfold headerIndex. rewrite findIndex_map.
  induction hs as [|h hs IH]; cbn [findIndex]; [reflexivity|].
  rewrite toLowerCase_idem, IH. reflexivity.
Qed.

Lemma selectColumns_lower (nq : string) (hs : list string) :
  snd (selectColumns nq (List.map Str.toLowerCase hs)) =
  snd (selectColumns nq hs).
Proof.
  unfold selectColumns.
  destruct (selectMatch nq) as [inner|];
    [destruct (negb (String.eqb (Str.trim inner) "*"))|];
    cbn [snd]; rewrite ?length_map; try reflexivity.
  apply map_ext. intros col. unfold columnIndexOf.
  rewrite headerIndex_lower. reflexivity.
Qed.

Lemma select_resultRows (nq : string) (hs : list string) (arr : list Row) :
  resultRows
    (let '(selectedColumns, columnIndices) := selectColumns nq hs in
     let resultRows := project columnIndices arr in
     mkQueryResult selectedColumns resultRows (length resultRows)) =
  project (snd (selectColumns nq hs)) arr.
Proof. destruct (selectColumns nq hs) as [sc ci]. reflexivity. Qed.

Lemma server_survivors_lower (query : string) (hs : list string)
    (rs : list Row) :
  Server.survivors query (mkCSVData (List.map Str.toLowerCase hs) rs) =
  Server.survivors query (mkCSVData hs rs).
Proof.
  unfold Server.survivors, Server.filtered. cbn [headers rows]. f_equal.
  destruct (whereMatch (normalize query)) as [clause|]; [|reflexivity].
  apply filter_ext. intros row. unfold Server.whereKeeps.
  destruct (Str.includes clause "="); [|reflexivity].
  destruct (List.map Str.trim (Str.split "=" clause)) as [|column [|value more]];
    try reflexivity.
  rewrite headerIndex_lower. reflexivity.
Qed.

Lemma client_survivors_lower (localeCompare : string -> string -> Z)
    (query : string) (hs : list string) (rs : list Row) :
  Client.survivors localeCompare query
    (mkCSVData (List.map Str.toLowerCase hs) rs) =
  Client.survivors localeCompare query (mkCSVData hs rs).
Proof.
  unfold Client.survivors, Client.ordered, Client.filtered.
  cbn [headers rows]. f_equal.
  assert (Hf : forall clause,
             List.filter (Client.whereKeeps (List.map Str.toLowerCase hs) clause) rs =
             List.filter (Client.whereKeeps hs clause) rs).
  { intros clause. apply filter_ext. intros row. unfold Client.whereKeeps.
    destruct (Str.includes clause "=").
    - destruct (List.map Str.trim (Str.split "=" clause))
        as [|column [|value more]]; try reflexivity.
      rewrite headerIndex_lower. reflexivity.
    - destruct (Str.includes clause "like"); [|reflexivity].
      destruct (exec re_like clause) as [m|]; [|reflexivity].
      rewrite headerIndex_lower. reflexivity. }
  destruct (Client.orderMatch (normalize query)) as [[column direction]|].
  - rewrite headerIndex_lower.
    destruct (whereMatch (normalize query)) as [clause|];
      rewrite ?Hf; reflexivity.
  - destruct (whereMatch (normalize query)) as [clause|];
      rewrite ?Hf; reflexivity.
Qed.

(** X18. Letter case plays no part. Two queries that are equal in lower
    case get the same result from either engine, quoted values included;
    and spelling the headers of the table in lower case changes the
    column names of a result and nothing in its rows. *)
Theorem letter_case_is_ignored
    (localeCompare : string -> string -> Z) (q1 q2 : string) (t : CSVData) :
  Str.toLowerCase q1 = Str.toLowerCase q2 ->
  let t' := mkCSVData (List.map Str.toLowerCase (headers t)) (rows t) in
  Client.execute localeCompare q1 t = Client.execute localeCompare q2 t
  /\ Server.executeCSVQuery q1 t = Server.executeCSVQuery q2 t
  /\ resultRows (Client.execute localeCompare q1 t') =
     resultRows (Client.execute localeCompare q1 t)
  /\ resultRows (Server.executeCSVQuery q1 t') =
     resultRows (Server.executeCSVQuery q1 t).
Proof.
  intros Hlow t'.
  assert (Hn : normalize q1 = normalize q2)
    by (unfold normalize; rewrite Hlow; reflexivity).
  split; [|split; [|split]].
  - unfold Client.execute, Client.executeCSVQuery. rewrite Hn. reflexivity.
  - unfold Server.executeCSVQuery. rewrite Hn. reflexivity.
  - destruct t as [hs rs]. unfold t'. cbn [headers rows].
    destruct (Str.includes (normalize q1) "select") eqn:Hsel.
    + rewrite !execute_select by exact Hsel. rewrite !select_resultRows.
      cbn [headers]. rewrite selectColumns_lower, client_survivors_lower.
      reflexivity.
    + rewrite !execute_unsupported by exact Hsel. reflexivity.
  - destruct t as [hs rs]. unfold t'. cbn [headers rows].
    destruct (Str.includes (normalize q1) "select") eqn:Hsel.
    + rewrite !server_execute_select by exact Hsel. rewrite !select_resultRows.
      cbn [headers]. rewrite selectColumns_lower, server_survivors_lower.
      reflexivity.
    + rewrite !server_execute_unsupported by exact Hsel. reflexivity.
Qed.

Lemma letter_case_is_ignored_witness :
  let t := mkCSVData ["Year"; "Value"] [["2024"; "17"]; ["2023"; "4"]] in
  let q1 := "SELECT Value FROM t WHERE YEAR = '2024'" in
  let q2 := "select VALUE from T where year = '2024'" in
  Str.toLowerCase q1 = Str.toLowerCase q2
  /\ Client.execute codeUnitCompare q1 t = Client.execute codeUnitCompare q2 t
  /\ Server.executeCSVQuery q2 t = mkQueryResult [Some "Value"] [["17"]] 1
  /\ Server.executeCSVQuery q1 (mkCSVData ["year"; "value"] (rows t)) =
     mkQueryResult [Some "value"] [["17"]] 1.
Proof.
  intros t q1 q2.
  assert (Hlow : Str.toLowerCase q1 = Str.toLowerCase q2)
    by (vm_compute; reflexivity).
  destruct (letter_case_is_ignored codeUnitCompare q1 q2 t Hlow)
    as (Hc & Hs & _ & _).
  split; [exact Hlow|]. split; [exact Hc|]. split.
  - rewrite <- Hs. vm_compute. reflexivity.
  - vm_compute. reflexivity.
Defined.

(** ** ORDER BY on a column of numbers *)

Lemma subSign_le (x y : Num.num) :
  (Num.subSign x y <= 0)%Z <-> Num.compare x y <> Gt.
Proof.
  unfold Num.subSign. destruct (Num.compare x y); split;
    intros H; try lia; try discriminate; try congruence.
Qed.

Lemma subSign_pos (x y : Num.num) :
  (0 < Num.subSign x y)%Z -> (Num.subSign y x <= 0)%Z.
Proof.
  unfold Num.subSign. rewrite (num_compare_antisym x y).
  destruct (Num.compare x y); cbn [CompOpp]; lia.
Qed.

Section SortExt.
Context {A : Type} (cmp cmp' : A -> A -> Z).

Lemma insertSorted_ext_in (x : A) (l : list A) :
  (forall y, In y l -> cmp x y = cmp' x y) ->
  Client.insertSorted cmp x l = Client.insertSorted cmp' x l.
Proof.
  induction l as [|y l IH]; intros H; cbn [Client.insertSorted]; [reflexivity|].
  rewrite (H y (or_introl eq_refl)), IH; [reflexivity|].
  intros z Hz. apply H. right. exact Hz.
Qed.

Lemma sortBy_ext_in (l : list A) :
  (forall x y, In x l -> In y l -> cmp x y = cmp' x y) ->
  Client.sortBy cmp l = Client.sortBy cmp' l.
Proof.
  induction l as [|x l IH]; intros H; cbn [Client.sortBy]; [reflexivity|].
  rewrite <- IH by (intros y z Hy Hz; apply H; right; assumption).
  apply insertSorted_ext_in. intros y Hy.
  apply H; [left; reflexivity|]. right.
  exact (Permutation_in _ (sortBy_perm cmp l) Hy).
Qed.

End SortExt.

Lemma compareRows_numeric (localeCompare : string -> string -> Z)
    (columnIndex : nat) (direction : option string) (u v : Row)
    (x y : Num.num) :
  Num.parseFloat (cell u columnIndex) = Some x ->
  Num.parseFloat (cell v columnIndex) = Some y ->
  Client.compareRows localeCompare columnIndex direction u v =
  if Client.isDesc direction then Num.subSign y x else Num.subSign x y.
Proof.
  intros Hx Hy. unfold Client.compareRows. rewrite Hx, Hy. reflexivity.
Qed.

(** X19. When every cell of the ORDER BY column parses as a number, the
    client engine sorts the rows the WHERE block left by these numbers,
    descending when the direction is [desc] and ascending otherwise, and
    the collation of the host plays no part in the result. *)
Theorem order_by_numeric_column
    (localeCompare : string -> string -> Z) (query : string) (t : CSVData)
    (column : string) (direction : option string) (columnIndex : nat) :
  Client.orderMatch (normalize query) = Some (column, direction) ->
  headerIndex (headers t) column = Some columnIndex ->
  Forall (fun r : Row => Num.parseFloat (cell r columnIndex) <> None) (rows t) ->
  StronglySorted
    (fun u v : Row =>
       if Client.isDesc direction
       then numericLe (cell v columnIndex) (cell u columnIndex)
       else numericLe (cell u columnIndex) (cell v columnIndex))
    (Client.ordered localeCompare query t (Client.filtered query t))
  /\ (forall localeCompare' : string -> string -> Z,
        Client.execute localeCompare' query t =
        Client.execute localeCompare query t).
Proof.
  intros Horder Hcol Hnum.
  assert (Hcell : forall r, In r (Client.filtered query t) ->
                    exists x, Num.parseFloat (cell r columnIndex) = Some x).
  { intros r Hr. apply filtered_incl in Hr.
    rewrite List.Forall_forall in Hnum. specialize (Hnum r Hr).
    destruct (Num.parseFloat (cell r columnIndex)) as [x|];
      [eauto | contradiction]. }
  split.
  - unfold Client.ordered. rewrite Horder, Hcol.
    eapply StronglySorted_weaken; [|apply sortBy_sorted].
    + intros u v Hu Hv.
      apply (Permutation_in _ (sortBy_perm _ _)) in Hu, Hv.
      destruct (Hcell u Hu) as [x Hx], (Hcell v Hv) as [y Hy].
      rewrite (compareRows_numeric _ _ _ _ _ x y Hx Hy).
      unfold numericLe. rewrite Hx, Hy.
      destruct (Client.isDesc direction); apply subSign_le.
    + intros u v Hu Hv.
      destruct (Hcell u Hu) as [x Hx], (Hcell v Hv) as [y Hy].
      rewrite (compareRows_numeric _ _ _ _ _ x y Hx Hy),
        (compareRows_numeric _ _ _ _ _ y x Hy Hx).
      destruct (Client.isDesc direction); apply subSign_pos.
    + intros u v w Hu Hv Hw.
      destruct (Hcell u Hu) as [x Hx], (Hcell v Hv) as [y Hy],
        (Hcell w Hw) as [z Hz].
      rewrite (compareRows_numeric _ _ _ _ _ x y Hx Hy),
        (compareRows_numeric _ _ _ _ _ y z Hy Hz),
        (compareRows_numeric _ _ _ _ _ x z Hx Hz).
      destruct (Client.isDesc direction); rewrite !subSign_le; intros H1 H2.
      * exact (num_le_trans z y x H2 H1).
      * exact (num_le_trans x y z H1 H2).
  - intros localeCompare'.
    destruct (Str.includes (normalize query) "select") eqn:Hsel.
    + rewrite !execute_select by exact Hsel.
      assert (E : Client.survivors localeCompare' query t =
                  Client.survivors localeCompare query t).
      { unfold Client.survivors, Client.ordered. rewrite Horder, Hcol.
        f_equal. apply sortBy_ext_in. intros u v Hu Hv.
        destruct (Hcell u Hu) as [x Hx], (Hcell v Hv) as [y Hy].
        rewrite !(compareRows_numeric _ _ _ _ _ x y Hx Hy). reflexivity. }
      rewrite E. reflexivity.
    + rewrite !execute_unsupported by exact Hsel. reflexivity.
Qed.

Lemma order_by_numeric_column_witness :
  let t := mkCSVData ["name"; "Value"]
             [["a"; "10"]; ["b"; "9"]; ["c"; "-3.5"]; ["d"; "1e2"]] in
  let query := "SELECT name FROM t ORDER BY value DESC" in
  Client.orderMatch (normalize query) = Some ("value", Some "desc")
  /\ headerIndex (headers t) "value" = Some 1
  /\ Forall (fun r : Row => Num.parseFloat (cell r 1) <> None) (rows t)
  /\ Client.execute (fun _ _ => 0%Z) query t =
       Client.execute codeUnitCompare query t
  /\ Client.execute codeUnitCompare query t =
       mkQueryResult [Some "name"] [["d"]; ["a"]; ["b"]; ["c"]] 4.
Proof.
  intros t query.
  assert (Ho : Client.orderMatch (normalize query) =
               Some ("value", Some "desc")) by (vm_compute; reflexivity).
  assert (Hh : headerIndex (headers t) "value" = Some 1)
    by (vm_compute; reflexivity).
  assert (Hn : Forall (fun r : Row => Num.parseFloat (cell r 1) <> None)
                 (rows t)).
  { repeat constructor; vm_compute; discriminate. }
  destruct (order_by_numeric_column codeUnitCompare query t "value"
              (Some "desc") 1 Ho Hh Hn) as [_ Hany].
  split; [exact Ho|]. split; [exact Hh|]. split; [exact Hn|].
  split; [exact (Hany (fun _ _ => 0%Z))|].
  vm_compute. reflexivity.
Defined.

(** ** Reading back a text whose fields are all quoted *)

Lemma split_app_sep (sep : ascii) (a b : string) :
  Str.split sep (a ++ String sep b) = Str.split sep a ++ Str.split sep b.
Proof.
  induction a as [|c a IH].
  - change ("" ++ String sep b)%string with (String sep b).
    cbn [Str.split]. rewrite Ascii.eqb_refl. reflexivity.
  - change (String c a ++ String sep b)%string
      with (String c (a ++ String sep b)%string).
    cbn [Str.split]. rewrite IH.
    destruct (Ascii.eqb c sep); [reflexivity|].
    destruct (split_cons sep a) as (x & xs & ->). reflexivity.
Qed.

Lemma split_no_sep (sep : ascii) (s : string) :
  Str.count sep s = 0 -> Str.split sep s = [s].
Proof.
  induction s as [|c r IH]; cbn [Str.split Str.count]; [reflexivity|].
  destruct (Ascii.eqb c sep); [discriminate|].
  intros H. rewrite IH by exact H. reflexivity.
Qed.

Lemma join_split (sep : ascii) (s : string) :
  Csv.join (String sep "") (Str.split sep s) = s.
Proof.
  induction s as [|c r IH]; cbn [Str.split]; [reflexivity|].
  destruct (Ascii.eqb_spec c sep) as [->|Hne].
  - destruct (split_cons sep r) as (x & xs & E). rewrite E in *.
    change (Csv.join (String sep "") ("" :: x :: xs))
      with (String sep (Csv.join (String sep "") (x :: xs))).
    rewrite IH. reflexivity.
  - destruct (split_cons sep r) as (x & xs & E). rewrite E in *.
    destruct xs as [|y ys].
    + cbn [Csv.join] in *. rewrite IH. reflexivity.
    + change (Csv.join (String sep "") (String c x :: y :: ys))
        with (String c (Csv.join (String sep "") (x :: y :: ys))).
      rewrite IH. reflexivity.
Qed.

Lemma split_join_records (x : string) (rs : list string) :
  Str.split Server.newline (Csv.join (String Server.newline "") (x :: rs)) =
  Str.split Server.newline x ++ concat (List.map (Str.split Server.newline) rs).
Proof.
  revert x. induction rs as [|y rs IH]; intros x.
  - cbn [Csv.join List.map concat]. rewrite app_nil_r. reflexivity.
  - change (Csv.join (String Server.newline "") (x :: y :: rs))
      with (x ++ String Server.newline
                   (Csv.join (String Server.newline "") (y :: rs)))%string.
    rewrite split_app_sep, IH. reflexivity.
Qed.

Lemma feedsQuoted_app (a b : string) (n : nat) :
  Csv.feedsQuoted n (a ++ b) =
  Csv.feedsQuoted n a && Csv.feedsQuoted (Str.count Server.dquote a + n) b.
Proof.
  revert n. induction a as [|c a IH]; intros n; [reflexivity|].
  change (String c a ++ b)%string with (String c (a ++ b)%string).
  cbn [Csv.feedsQuoted Str.count].
  destruct (Ascii.eqb_spec c Server.newline) as [->|Hne].
  - change (Ascii.eqb Server.newline Server.dquote) with false.
    cbn [Nat.add]. rewrite IH, andb_assoc. reflexivity.
  - rewrite IH. f_equal. f_equal. lia.
Qed.

Lemma count_escapeQuotes (f : string) :
  Str.count Server.dquote (Csv.escapeQuotes f) = 2 * Str.count Server.dquote f.
Proof.
  induction f as [|c f IH]; [reflexivity|].
  cbn [Csv.escapeQuotes Str.count].
  destruct (Ascii.eqb c Server.dquote) eqn:E; cbn [Str.count].
  - change (Ascii.eqb Server.dquote Server.dquote) with true. rewrite IH. lia.
  - rewrite E, IH. lia.
Qed.

Lemma feedsQuoted_escapeQuotes (f : string) (n : nat) :
  Nat.odd n = true -> Csv.feedsQuoted n (Csv.escapeQuotes f) = true.
Proof.
  revert n. induction f as [|c f IH]; intros n Hn; [reflexivity|].
  cbn [Csv.escapeQuotes].
  destruct (Ascii.eqb_spec c Server.dquote) as [->|Hne].
  - cbn [Csv.feedsQuoted].
    change (Ascii.eqb Server.dquote Server.newline) with false.
    change (Ascii.eqb Server.dquote Server.dquote) with true.
    cbv iota. apply IH.
    change (1 + (1 + n)) with (S (S n)).
    rewrite Nat.odd_succ, Nat.even_succ. exact Hn.
  - cbn [Csv.feedsQuoted].
    destruct (Ascii.eqb c Server.newline); [rewrite Hn, IH by exact Hn; reflexivity|].
    apply Ascii.eqb_neq in Hne. rewrite Hne. apply IH. exact Hn.
Qed.

Lemma count_quoteField (f : string) :
  Str.count Server.dquote (Csv.quoteField f) =
  2 + 2 * Str.count Server.dquote f.
Proof.
  unfold Csv.quoteField. cbn [Str.count].
  rewrite count_app, count_escapeQuotes. cbn [Str.count].
  change (Ascii.eqb Server.dquote Server.dquote) with true. cbv iota. lia.
Qed.

Lemma feedsQuoted_quoteField (f : string) (n : nat) :
  Nat.even n = true -> Csv.feedsQuoted n (Csv.quoteField f) = true.
Proof.
  intros Hn. unfold Csv.quoteField. cbn [Csv.feedsQuoted].
  change (Ascii.eqb Server.dquote Server.newline) with false.
  change (Ascii.eqb Server.dquote Server.dquote) with true.
  cbv iota. rewrite feedsQuoted_app.
  rewrite feedsQuoted_escapeQuotes
    by (change (1 + n) with (S n); rewrite Nat.odd_succ; exact Hn).
  reflexivity.
Qed.

Lemma even_quoteField (f : string) (n : nat) :
  Nat.even (Str.count Server.dquote (Csv.quoteField f) + n) = Nat.even n.
Proof.
  rewrite count_quoteField.
  replace (2 + 2 * Str.count Server.dquote f + n)
    with (n + 2 * (1 + Str.count Server.dquote f)) by lia.
  apply Nat.even_add_mul_2.
Qed.

Lemma renderRow_cons (f g : string) (fs : list string) :
  Csv.renderRow (f :: g :: fs) =
  (Csv.quoteField f ++ String Server.comma (Csv.renderRow (g :: fs)))%string.
Proof. reflexivity. Qed.

Lemma renderRow_balanced (fs : list string) (n : nat) :
  Nat.even n = true ->
  Csv.feedsQuoted n (Csv.renderRow fs) = true
  /\ Nat.even (n + Str.count Server.dquote (Csv.renderRow fs)) = true.
Proof.
  revert n. induction fs as [|f fs IH]; intros n Hn.
  - cbn. rewrite Nat.add_0_r. split; [reflexivity | exact Hn].
  - destruct fs as [|g fs].
    + change (Csv.renderRow [f]) with (Csv.quoteField f).
      split; [apply feedsQuoted_quoteField, Hn|].
      rewrite Nat.add_comm, even_quoteField. exact Hn.
    + rewrite renderRow_cons.
      assert (Hn' : Nat.even (Str.count Server.dquote (Csv.quoteField f) + n) = true)
        by (rewrite even_quoteField; exact Hn).
      destruct (IH _ Hn') as [Hfeeds Heven].
      split.
      * rewrite feedsQuoted_app, feedsQuoted_quoteField by exact Hn.
        cbn [Csv.feedsQuoted andb].
        change (Ascii.eqb Server.comma Server.newline) with false.
        change (Ascii.eqb Server.comma Server.dquote) with false.
        cbv iota. cbn [Nat.add]. exact Hfeeds.
      * rewrite count_app. cbn [Str.count].
        change (Ascii.eqb Server.comma Server.dquote) with false.
        cbn [Nat.add].
        replace (n + (Str.count Server.dquote (Csv.quoteField f) +
                      Str.count Server.dquote (Csv.renderRow (g :: fs))))
          with (Str.count Server.dquote (Csv.quoteField f) + n +
                Str.count Server.dquote (Csv.renderRow (g :: fs))) by lia.
        exact Heven.
Qed.

Lemma balancedAfter_split (s : string) :
  forall (n : nat) (p0 : string) (ptail : list string),
  Str.split Server.newline s = p0 :: ptail ->
  Csv.balancedAfter (n + Str.count Server.dquote p0) ptail =
  Csv.feedsQuoted n s && Nat.even (n + Str.count Server.dquote s).
Proof.
  induction s as [|c r IH]; intros n p0 ptail; cbn [Str.split].
  - intros [= <- <-]. reflexivity.
  - destruct (split_cons Server.newline r) as (x & xs & E). rewrite E.
    cbn [Csv.feedsQuoted Str.count].
    destruct (Ascii.eqb_spec c Server.newline) as [->|Hne].
    + intros [= <- <-].
      change (Ascii.eqb Server.newline Server.dquote) with false.
      cbn [Str.count Csv.balancedAfter Nat.add]. rewrite !Nat.add_0_r.
      rewrite (IH n x xs E), andb_assoc. reflexivity.
    + intros [= <- <-]. cbn [Str.count].
      set (k := if Ascii.eqb c Server.dquote then 1 else 0).
      replace (n + (k + Str.count Server.dquote x))
        with (k + n + Str.count Server.dquote x) by lia.
      replace (n + (k + Str.count Server.dquote r))
        with (k + n + Str.count Server.dquote r) by lia.
      apply (IH (k + n) x xs E).
Qed.

Lemma parseCSVRow_from_balanced (ptail rest' : list string) :
  forall (cur : string) (i n : nat),
  Csv.balancedAfter n ptail = true ->
  Server.parseCSVRow_from (ptail ++ rest') cur i n =
  (Csv.join (String Server.newline "") (cur :: ptail), i + length ptail).
Proof.
  induction ptail as [|p ps IH]; intros cur i n Hb.
  - cbn [Csv.balancedAfter] in Hb. cbn [app length Csv.join].
    rewrite Nat.add_0_r.
    destruct rest' as [|next rest']; cbn [Server.parseCSVRow_from];
      [reflexivity|].
    rewrite <- Nat.negb_even, Hb. reflexivity.
  - cbn [Csv.balancedAfter] in Hb. apply andb_prop in Hb as [Hodd Hb].
    cbn [app Server.parseCSVRow_from length]. rewrite Hodd.
    rewrite (IH _ _ _ Hb), join_lines_merge. f_equal. lia.
Qed.

(** A record with all its fields quoted, spread over the lines its line
    feeds cut it into, is taken as one logical row. *)
Lemma parseCSVRow_record (pre rest' : list string) (fs : list string) :
  fs <> [] ->
  Server.parseCSVRow
    (pre ++ Str.split Server.newline (Csv.renderRow fs) ++ rest')
    (length pre) =
  (List.map Str.trim fs,
   length pre + length (Str.split Server.newline (Csv.renderRow fs))).
Proof.
  intros Hne.
  pose proof (join_split Server.newline (Csv.renderRow fs)) as Hjoin.
  destruct (Str.split Server.newline (Csv.renderRow fs)) as [|p0 ptail] eqn:E;
    [destruct (split_cons Server.newline (Csv.renderRow fs)) as (? & ? & E');
     congruence|].
  unfold Server.parseCSVRow.
  change ((p0 :: ptail) ++ rest') with (p0 :: (ptail ++ rest')).
  rewrite (list_lookup_middle pre (ptail ++ rest') p0 (length pre) eq_refl).
  cbn [default from_option id].
  replace (skipn (length pre + 1) (pre ++ p0 :: (ptail ++ rest')))
    with (ptail ++ rest').
  2:{ change (pre ++ p0 :: (ptail ++ rest'))
        with (pre ++ [p0] ++ (ptail ++ rest')).
      rewrite app_assoc. symmetry. apply drop_app_length'.
      rewrite length_app. reflexivity. }
  destruct (renderRow_balanced fs 0 eq_refl) as [Hfeeds Heven].
  pose proof (balancedAfter_split _ 0 p0 ptail E) as Hb.
  rewrite Hfeeds, Heven in Hb. cbn [Nat.add andb] in Hb.
  rewrite (parseCSVRow_from_balanced ptail rest' p0 (length pre) _ Hb).
  rewrite Hjoin. unfold Server.parseCSVLine, Csv.renderRow.
  rewrite parseCSVLine_from_quoted_fields by exact Hne.
  cbn [length app]. f_equal. lia.
Qed.

Lemma renderRow_first_line (fs : list string) :
  fs <> [] ->
  exists p ptail,
    Str.split Server.newline (Csv.renderRow fs) =
    String Server.dquote p :: ptail.
Proof.
  intros Hne. destruct fs as [|f fs]; [congruence|].
  assert (E : exists x, Csv.renderRow (f :: fs) = String Server.dquote x).
  { destruct fs as [|g fs]; [eexists; reflexivity|].
    rewrite renderRow_cons. eexists. reflexivity. }
  destruct E as [x ->]. cbn [Str.split].
  change (Ascii.eqb Server.dquote Server.newline) with false.
  destruct (split_cons Server.newline x) as (p & ptail & ->). eauto.
Qed.

Lemma parseCSV_rows_at_end lines width i acc :
  length lines <= i -> Server.parseCSV_rows lines width i acc = acc.
Proof.
  intros Hi. funelim (Server.parseCSV_rows lines width i acc);
    [reflexivity | lia | lia].
Qed.

Lemma parseCSV_rows_blank lines width i acc line :
  lines !! i = Some line ->
  Str.isEmpty (Str.trim line) = true ->
  Server.parseCSV_rows lines width i acc =
  Server.parseCSV_rows lines width (i + 1) acc.
Proof.
  intros Hline Hblank. apply lookup_lt_Some in Hline as Hi.
  funelim (Server.parseCSV_rows lines width i acc).
  - lia.
  - reflexivity.
  - rewrite Hline in Heq. cbn [default from_option id] in Heq. congruence.
Qed.

Lemma parseCSV_rows_row lines width i acc line row next :
  lines !! i = Some line ->
  Str.isEmpty (Str.trim line) = false ->
  Server.parseCSVRow lines i = (row, next) ->
  Server.parseCSV_rows lines width i acc =
  Server.parseCSV_rows lines width next
    (if 0 <? length row then acc ++ [normalizeRow width row] else acc).
Proof.
  intros Hline Hblank Hparse. apply lookup_lt_Some in Hline as Hi.
  funelim (Server.parseCSV_rows lines width i acc).
  - lia.
  - rewrite Hline in Heq. cbn [default from_option id] in Heq. congruence.
  - rewrite Hrow in Hparse. injection Hparse as <- <-. reflexivity.
Qed.

Lemma parseCSV_rows_blank_tail (tail : list string) :
  forall (pre : list string) (width : nat) (acc : list Row),
  Forall (fun l => Str.isEmpty (Str.trim l) = true) tail ->
  Server.parseCSV_rows (pre ++ tail) width (length pre) acc = acc.
Proof.
  induction tail as [|b tail IH]; intros pre width acc Hblank.
  - apply parseCSV_rows_at_end. rewrite app_nil_r. lia.
  - apply Forall_cons in Hblank as [Hb Htail].
    rewrite (parseCSV_rows_blank _ _ _ _ b
               (list_lookup_middle pre tail b (length pre) eq_refl) Hb).
    change (pre ++ b :: tail) with (pre ++ [b] ++ tail).
    rewrite app_assoc.
    replace (length pre + 1) with (length (pre ++ [b]))
      by (rewrite length_app; reflexivity).
    apply IH, Htail.
Qed.

Lemma parseCSV_rows_records (records : list (list string)) :
  forall (pre tail : list string) (width : nat) (acc : list Row),
  Forall (fun fs => fs <> []) records ->
  Forall (fun l => Str.isEmpty (Str.trim l) = true) tail ->
  Server.parseCSV_rows
    (pre ++ concat (List.map (Str.split Server.newline)
                      (List.map Csv.renderRow records)) ++ tail)
    width (length pre) acc =
  acc ++ List.map (fun fs => normalizeRow width (List.map Str.trim fs)) records.
Proof.
  induction records as [|fs records IH]; intros pre tail width acc Hne Hblank.
  - cbn [List.map concat app]. rewrite app_nil_r.
    apply parseCSV_rows_blank_tail, Hblank.
  - apply Forall_cons in Hne as [Hfs Hne].
    cbn [List.map concat]. rewrite <- (app_assoc _ _ tail).
    set (rest' := concat (List.map (Str.split Server.newline)
                            (List.map Csv.renderRow records)) ++ tail).
    destruct (renderRow_first_line fs Hfs) as (p & ptail & Hsplit).
    assert (Hline : (pre ++ Str.split Server.newline (Csv.renderRow fs) ++ rest')
                      !! length pre = Some (String Server.dquote p)).
    { rewrite Hsplit. apply list_lookup_middle. reflexivity. }
    rewrite (parseCSV_rows_row _ _ _ _ _ _ _ Hline eq_refl
               (parseCSVRow_record pre rest' fs Hfs)).
    rewrite length_map.
    destruct fs as [|f fs]; [congruence|]. cbn [length Nat.ltb Nat.leb].
    rewrite app_assoc, <- length_app.
    unfold rest'. rewrite IH by assumption.
    rewrite <- app_assoc. reflexivity.
Qed.

Lemma count_newline_escapeQuotes (f : string) :
  Str.count Server.newline (Csv.escapeQuotes f) = Str.count Server.newline f.
Proof.
  induction f as [|c f IH]; [reflexivity|].
  cbn [Csv.escapeQuotes Str.count].
  destruct (Ascii.eqb_spec c Server.dquote) as [->|Hne]; cbn [Str.count].
  - change (Ascii.eqb Server.dquote Server.newline) with false.
    rewrite IH. reflexivity.
  - rewrite IH. reflexivity.
Qed.

Lemma count_newline_renderRow (fs : list string) :
  Forall (fun f => Str.count Server.newline f = 0) fs ->
  Str.count Server.newline (Csv.renderRow fs) = 0.
Proof.
  assert (Hq : forall f, Str.count Server.newline f = 0 ->
                 Str.count Server.newline (Csv.quoteField f) = 0).
  { intros f Hf. unfold Csv.quoteField. cbn [Str.count].
    rewrite count_app, count_newline_escapeQuotes, Hf. reflexivity. }
  induction fs as [|f fs IH]; intros H; [reflexivity|].
  apply Forall_cons in H as [Hf Hfs].
  destruct fs as [|g fs]; [exact (Hq f Hf)|].
  rewrite renderRow_cons, count_app, (Hq f Hf). cbn [Str.count].
  change (Ascii.eqb Server.comma Server.newline) with false.
  rewrite (IH Hfs). reflexivity.
Qed.

(** X20. Reading back what a writer that quotes every field has written:
    for a header record without line feeds in its fields and data records
    of at least one field each, fields that hold commas, quotes and line
    feeds included, [parseCSV] returns the header fields trimmed and one
    row for each data record, its fields trimmed and brought to the header
    width, in their order; a line feed at the end of the text changes
    nothing. *)
Theorem parseCSV_reads_back_quoted_text
    (hs : list string) (records : list (list string)) :
  hs <> [] ->
  Forall (fun f => Str.count Server.newline f = 0) hs ->
  Forall (fun fs => fs <> []) records ->
  let t := mkCSVData (List.map Str.trim hs)
             (List.map (fun fs => normalizeRow (length hs) (List.map Str.trim fs))
                records) in
  Server.parseCSV (Csv.render (hs :: records)) = t
  /\ Server.parseCSV (Csv.render (hs :: records) ++ String Server.newline "") = t.
Proof.
  intros Hhs Hfeed Hne t.
  assert (Hlines : Str.split Server.newline (Csv.render (hs :: records)) =
                   [Csv.renderRow hs] ++
                   concat (List.map (Str.split Server.newline)
                             (List.map Csv.renderRow records))).
  { unfold Csv.render. cbn [List.map]. rewrite split_join_records.
    rewrite (split_no_sep _ _ (count_newline_renderRow hs Hfeed)).
    reflexivity. }
  assert (Hhead : Server.parseCSVLine (Csv.renderRow hs) = List.map Str.trim hs).
  { unfold Server.parseCSVLine, Csv.renderRow.
    rewrite parseCSVLine_from_quoted_fields by exact Hhs. reflexivity. }
  split.
  - unfold Server.parseCSV. rewrite Hlines. cbn [app].
    rewrite Hhead, length_map. unfold t. f_equal.
    pose proof (parseCSV_rows_records records [Csv.renderRow hs] []
                  (length hs) [] Hne (List.Forall_nil _)) as H.
    rewrite app_nil_r in H. exact H.
  - unfold Server.parseCSV. rewrite split_app_sep, Hlines.
    cbn [app Str.split]. rewrite Hhead, length_map. unfold t. f_equal.
    assert (Hblank : Forall (fun l => Str.isEmpty (Str.trim l) = true) [""])
      by (repeat constructor).
    exact (parseCSV_rows_records records [Csv.renderRow hs] [""]
             (length hs) [] Hne Hblank).
Qed.

Lemma parseCSV_reads_back_quoted_text_witness :
  let note := ("one," ++ String Server.newline "two "
                 ++ String Server.dquote "three")%string in
  let hs := ["name"; "note"] in
  let records := [["Ann"; note; "extra"]; ["Bob"]] in
  hs <> []
  /\ Forall (fun f => Str.count Server.newline f = 0) hs
  /\ Forall (fun fs : list string => fs <> []) records
  /\ length (Str.split Server.newline (Csv.render (hs :: records))) = 4
  /\ Server.parseCSV (Csv.render (hs :: records)) =
     mkCSVData ["name"; "note"] [["Ann"; note]; ["Bob"; ""]].
Proof.
  intros note hs records.
  assert (Hhs : hs <> []) by discriminate.
  assert (Hfeed : Forall (fun f => Str.count Server.newline f = 0) hs)
    by (repeat constructor).
  assert (Hne : Forall (fun fs : list string => fs <> []) records)
    by (repeat constructor; discriminate).
  destruct (parseCSV_reads_back_quoted_text hs records Hhs Hfeed Hne)
    as [E _].
  split; [exact Hhs|]. split; [exact Hfeed|]. split; [exact Hne|].
  split; [vm_compute; reflexivity|].
  rewrite E. vm_compute. reflexivity.
Defined.

(** ** The answer of the request handler *)

Lemma parseCSVLine_headers (csvText : string) :
  headers (Server.parseCSV csvText) <> [].
Proof.
  unfold Server.parseCSV.
  destruct (split_cons Server.newline csvText) as (line0 & more & ->).
  cbn [headers]. apply parseCSVLine_fields.
Qed.

Lemma columnIndexOf_lt (hs : list string) (col : string) :
  hs <> [] -> columnIndexOf hs col < length hs.
Proof.
  intros Hne. unfold columnIndexOf, headerIndex.
  destruct (findIndex _ hs) as [i|] eqn:E.
  - exact (findIndex_lt _ _ _ E).
  - destruct hs; [congruence | cbn [length]; lia].
Qed.

Lemma selectColumns_defined (nq : string) (hs : list string) :
  hs <> [] ->
  Forall (fun c : option string => c <> None) (fst (selectColumns nq hs)).
Proof.
  intros Hne.
  assert (Hall : Forall (fun c : option string => c <> None) (List.map Some hs)).
  { apply List.Forall_forall. intros c Hc.
    apply in_map_iff in Hc as (h & <- & _). discriminate. }
  unfold selectColumns.
  destruct (selectMatch nq) as [inner|]; [|exact Hall].
  destruct (negb (String.eqb (Str.trim inner) "*")); [|exact Hall].
  cbn [fst]. apply List.Forall_forall. intros c Hc.
  apply in_map_iff in Hc as (i & <- & Hi).
  apply in_map_iff in Hi as (col & <- & _).
  pose proof (columnIndexOf_lt hs col Hne) as Hlt.
  apply lookup_lt_is_Some_2 in Hlt as [h ->]. discriminate.
Qed.

Lemma parseCSV_rows_bound (csvText : string) :
  length (rows (Server.parseCSV csvText)) <= Str.count Server.newline csvText.
Proof.
  unfold Server.parseCSV.
  pose proof (split_length Server.newline csvText) as Hlen.
  destruct (Str.split Server.newline csvText) as [|line0 more] eqn:E;
    [discriminate Hlen|].
  cbn [rows].
  pose proof (parseCSV_rows_count (line0 :: more)
                (length (Server.parseCSVLine line0)) 1 []) as H.
  cbn [length] in H, Hlen. lia.
Qed.

(** X21. What the request handler answers for a CSV text and a query:
    every column of the answer has a name (the header list of a parsed
    text is never empty, so a column index always finds a header), and
    the answer has at most as many rows as the text has line feeds, or
    the one row of the not-supported message. *)
Theorem response_has_named_columns (csvText query : string) :
  Forall (fun c : option string => c <> None)
    (columns (Server.respond csvText query))
  /\ rowCount (Server.respond csvText query) <=
     Nat.max 1 (Str.count Server.newline csvText).
Proof.
  unfold Server.respond.
  destruct (Str.includes (normalize query) "select") eqn:Hsel.
  - rewrite server_execute_select by exact Hsel.
    pose proof (selectColumns_defined (normalize query)
                  (headers (Server.parseCSV csvText))
                  (parseCSVLine_headers csvText)) as Hcols.
    pose proof (select_rowCount (normalize query)
                  (headers (Server.parseCSV csvText))
                  (Server.survivors query (Server.parseCSV csvText))) as Hcount.
    destruct (selectColumns (normalize query)
                (headers (Server.parseCSV csvText))) as [sc ci].
    cbn [fst columns] in *. split; [exact Hcols|].
    rewrite Hcount.
    pose proof (sublist_length _ _
                  (applyLimit_sublist (normalize query)
                     (Server.filtered query (Server.parseCSV csvText)))) as H1.
    pose proof (sublist_length _ _
                  (server_filtered_sublist query (Server.parseCSV csvText))) as H2.
    pose proof (parseCSV_rows_bound csvText) as H3.
    unfold Server.survivors. lia.
  - rewrite server_execute_unsupported by exact Hsel.
    split; [repeat constructor; discriminate | cbn [rowCount unsupported]; lia].
Qed.
